(** * Blankly: paper-trading ledger, exchange model registry, signal pipeline

    A shallow embedding of three Python modules of the Blankly repository:

    - [Blankly/utils/paper_trading/local_account/trade_local.py]
      (module [Ledger], facts in [LedgerFacts]),
    - [blankly/exchanges/exchange.py]
      (module [Exchange], facts in [ExchangeFacts]),
    - [blankly/strategy/signal.py]
      (module [Signal], facts in [SignalFacts]).

    Python statements become computations in a state-and-exception monad:
    a computation takes the mutable state and returns an outcome together
    with the state it leaves behind.  As in Python, the state written before
    an exception is raised stays written. *)

From stdpp Require Import base option gmap sets list strings.
From Stdlib Require Import Ascii String ZArith QArith.

Local Open Scope Z_scope.
Local Open Scope string_scope.
Local Open Scope list_scope.

(** ** The state-and-exception monad *)

Module Py.

(** The exceptions the modelled code can meet.  [KeyError] and [TypeError]
    are raised by the modelled code itself ([KeyError] carries the argument
    Python gives it: the missing key, or an explicit message).
    [RecursionError] is what [copy.deepcopy] ends with when the data is
    nested deeper than the interpreter lets it recurse.
    [Foreign] is any exception that escapes from a collaborator (a model
    method, a user callable): the modelled code neither catches nor wraps
    it, only its origin is recorded. *)
Inductive exn : Type :=
| KeyError (arg : string)
| TypeError (msg : string)
| RecursionError
| Foreign (tag : string).

Inductive res (A : Type) : Type :=
| Ok (a : A)
| Raise (e : exn).
Arguments Ok {A} a.
Arguments Raise {A} e.

Definition M (S A : Type) : Type := S → res A * S.

Definition ret {S A} (a : A) : M S A := λ s, (Ok a, s).

Definition bind {S A B} (c : M S A) (k : A → M S B) : M S B :=
  λ s, match c s with
       | (Ok a, s') => k a s'
       | (Raise e, s') => (Raise e, s')
       end.

Definition raise {S A} (e : exn) : M S A := λ s, (Raise e, s).

Definition gets {S A} (f : S → A) : M S A := λ s, (Ok (f s), s).

Definition modify {S} (f : S → S) : M S unit := λ s, (Ok tt, f s).

(** [try: body except KeyError: handler].  Only a [KeyError] of the body is
    caught; the handler runs in the state the body left. *)
Definition try_except_KeyError {S A} (body handler : M S A) : M S A :=
  λ s, match body s with
       | (Raise (KeyError _), s') => handler s'
       | r => r
       end.

(** [for x in xs: body x]. *)
Fixpoint for_each {S A} (xs : list A) (body : A → M S unit) : M S unit :=
  match xs with
  | [] => ret tt
  | x :: rest => bind (body x) (λ _, for_each rest body)
  end.

(** The outcome of a collaborator: it returns a value or raises. *)
Definition lift_outcome {A} (r : string + A) : res A :=
  match r with
  | inl tag => Raise (Foreign tag)
  | inr a => Ok a
  end.

End Py.

Import Py.

Declare Scope py_scope.
Delimit Scope py_scope with py.
Notation "x <- c ;; k" := (bind c (λ x, k))
  (at level 100, c at next level, right associativity) : py_scope.
Notation "c ;; k" := (bind c (λ _, k))
  (at level 100, right associativity) : py_scope.
Local Open Scope py_scope.

(** * Part I: the programs *)

(** ** The local paper-trading account: [trade_local.py] *)

Module Ledger.

(** Balances are Python numbers.  The code only adds them, so the number
    type with its addition is a parameter: integers, decimals and floats
    are all instances. *)
Class Number (num : Type) : Type := { add : num → num → num }.

(** The two functions of [Blankly.utils.utils] that [trade_local] calls.
    The module is not among the sources, so they are parameters. *)
Class Utils : Type := {
  get_base_currency : string → string;
  get_quote_currency : string → string
}.

Section ledger.

Context {num : Type} {numbers : Number num} {utils : Utils}.

(** [local_account.account[k]] *)
Definition getitem (k : string) : M (gmap string num) num :=
  λ account, match account !! k with
             | Some v => (Ok v, account)
             | None => (Raise (KeyError k), account)
             end.

(** [local_account.account[k] = v] *)
Definition setitem (k : string) (v : num) : M (gmap string num) unit :=
  modify (λ account, <[k := v]> account).

Definition trade_local (currency_pair side : string)
    (base_delta quote_delta : num) : M (gmap string num) unit :=
  let base := get_base_currency currency_pair in
  let quote := get_quote_currency currency_pair in
  try_except_KeyError
    (old <- getitem base ;; setitem base (add old base_delta))
    (raise (KeyError "Base currency specified not found in local account")) ;;
  try_except_KeyError
    (old <- getitem quote ;; setitem quote (add old quote_delta))
    (raise (KeyError "Quote currency specified not found in local account")).

Definition init_local_account (currencies : gmap string num)
    : M (gmap string num) unit :=
  modify (λ _, currencies).

(** The two statements of the spec about [apply_trade], at one input. *)
Definition fails_without_mutation (account : gmap string num)
    (currency_pair side : string) (base_delta quote_delta : num) : Prop :=
  let base := get_base_currency currency_pair in
  let quote := get_quote_currency currency_pair in
  account !! base = None ∨ account !! quote = None →
  ∃ msg account',
    trade_local currency_pair side base_delta quote_delta account
    = (Raise (KeyError msg), account') ∧
    account' !! base = account !! base ∧
    account' !! quote = account !! quote.

Definition adds_both_deltas (account : gmap string num)
    (currency_pair side : string) (base_delta quote_delta : num) : Prop :=
  let base := get_base_currency currency_pair in
  let quote := get_quote_currency currency_pair in
  ∀ b q, account !! base = Some b → account !! quote = Some q →
  ∃ account',
    trade_local currency_pair side base_delta quote_delta account
    = (Ok tt, account') ∧
    account' !! base = Some (add b base_delta) ∧
    account' !! quote = Some (add q quote_delta) ∧
    ∀ c, c ≠ base → c ≠ quote → account' !! c = account !! c.

End ledger.

(** *** Concrete numbers and symbols *)

Definition integers : Number Z := {| add := Z.add |}.

(** Modelled from the spec: [utils.get_base_currency] and
    [utils.get_quote_currency] are not among the sources.  The spec says a
    symbol such as BTC-USD is decomposed by a fixed separator rule into a
    base and a quote currency code: here the parts between dashes, the
    first and the second.  The theorems take the two functions as
    parameters; the split at the dash is used for concrete inputs. *)
Fixpoint split_dash (s : string) : list string :=
  match s with
  | EmptyString => [EmptyString]
  | String c rest =>
      if Ascii.eqb c "-"%char then EmptyString :: split_dash rest
      else match split_dash rest with
           | [] => [String c EmptyString]
           | w :: ws => String c w :: ws
           end
  end.

(** Modelled from the spec: [utils.get_base_currency], the first part of
    the symbol. *)
Definition dash_base (currency_pair : string) : string :=
  nth 0 (split_dash currency_pair) EmptyString.

(** Modelled from the spec: [utils.get_quote_currency], the second part of
    the symbol. *)
Definition dash_quote (currency_pair : string) : string :=
  nth 1 (split_dash currency_pair) EmptyString.

Definition dash_utils : Utils :=
  {| get_base_currency := dash_base; get_quote_currency := dash_quote |}.

End Ledger.

(** ** The exchange and its model registry: [exchange.py] *)

Module Exchange.

(** *** Python dicts that are iterated

    [self.models] is a dict that [start_models] iterates, so its insertion
    order matters: it is an association list, in insertion order.  A key
    that is assigned again keeps its place. *)
Section odict.
Context {V : Type}.

Fixpoint dict_get (k : string) (d : list (string * V)) : option V :=
  match d with
  | [] => None
  | (k', v) :: rest => if decide (k' = k) then Some v else dict_get k rest
  end.

Fixpoint dict_set (k : string) (v : V) (d : list (string * V))
    : list (string * V) :=
  match d with
  | [] => [(k, v)]
  | (k', v') :: rest =>
      if decide (k' = k) then (k, v) :: rest else (k', v') :: dict_set k v rest
  end.

Definition dict_keys (d : list (string * V)) : list string := d.*1.

(** A dict holds each key once. *)
Definition dict_wf (d : list (string * V)) : Prop := NoDup (dict_keys d).

End odict.

Section exchange.

(** Python objects the exchange only passes around (models, their
    arguments, states, preferences, the interface) are values of an opaque
    type [Obj].  Whatever the models and the exchange's interface keep
    outside the registry is the world [W]; a method of a collaborator is a
    function of the world that returns or raises (the [string] names the
    exception).  Collaborators do not call back into the exchange. *)
Context {Obj W : Type}.

(** An entry of [self.models]: the dict with keys model and args. *)
Record entry : Type := { model : Obj; args : Obj }.

(** The dict [get_full_state] returns, with keys account and model. *)
Record full_state : Type := { fs_account : Obj; fs_model : Obj }.

(** The methods the exchange calls on a model. *)
Class ModelRuntime : Type := {
  setup : Obj → string → string → Obj → full_state → Obj →
          W → (string + unit) * W;
  run : Obj → Obj → W → (string + unit) * W;
  is_running : Obj → W → (string + bool) * W;
  get_state : Obj → W → (string + Obj) * W;
  update_state : Obj → Obj → Obj → W → (string + unit) * W
}.

(** The abstract method of [Exchange] that [get_full_state] uses. *)
Class AssetState : Type := {
  get_asset_state : string → W → (string + Obj) * W
}.

Context `{!ModelRuntime, !AssetState}.

(** What the exchange does to the outside, in order: each call of a
    collaborator with what it answered, each sleep and each printed line. *)
Inductive event : Type :=
| Setup (m : Obj) (exchange_type coin_id : string) (prefs : Obj)
    (initial_state : full_state) (interface : Obj) (r : string + unit)
| Run (m a : Obj) (r : string + unit)
| IsRunning (m : Obj) (r : string + bool)
| GetState (m : Obj) (r : string + Obj)
| UpdateState (m key value : Obj) (r : string + unit)
| GetAssetState (symbol : string) (r : string + Obj)
| Sleep (seconds : Q)
| Print (line : string).

(** An event together with the registry as it was when the event happened. *)
Record logged : Type := { at_models : list (string * entry); what : event }.

Record state : Type := {
  __type : string;
  __name : string;
  preferences : Obj;
  Interface : Obj;
  models : list (string * entry);
  world : W;
  trace : list logged
}.

(** [Exchange.__init__].  Authentication, the direct calls and the loading
    of the preferences are the work of collaborators; what they produce (the
    interface, the preferences) is given, with the world they leave.  The
    registry starts empty. *)
Definition __init__ (exchange_type portfolio_name : string)
    (interface prefs : Obj) (w : W) : state :=
  {| __type := exchange_type; __name := portfolio_name;
     preferences := prefs; Interface := interface;
     models := []; world := w; trace := [] |}.

Definition set_models (f : list (string * entry) → list (string * entry))
    (s : state) : state :=
  {| __type := __type s; __name := __name s; preferences := preferences s;
     Interface := Interface s; models := f (models s); world := world s;
     trace := trace s |}.

(** The state after the world moved to [w] and [evs] happened. *)
Definition advance (s : state) (w : W) (evs : list event) : state :=
  {| __type := __type s; __name := __name s; preferences := preferences s;
     Interface := Interface s; models := models s; world := w;
     trace := trace s ++ (Build_logged (models s) <$> evs) |}.

(** A call of a collaborator: the world moves, the call is logged with its
    answer, and an exception of the collaborator propagates. *)
Definition call {A} (ev : string + A → event)
    (f : W → (string + A) * W) : M state A :=
  λ s, let '(r, w) := f (world s) in (lift_outcome r, advance s w [ev r]).

Definition print (line : string) : M state unit :=
  λ s, (Ok tt, advance s (world s) [Print line]).

Definition time_sleep (seconds : Q) : M state unit :=
  λ s, (Ok tt, advance s (world s) [Sleep seconds]).

(** [self.models[coin]] *)
Definition models_getitem (coin : string) : M state entry :=
  λ s, match dict_get coin (models s) with
       | Some e => (Ok e, s)
       | None => (Raise (KeyError coin), s)
       end.

Definition get_name : M state string := gets __name.
Definition get_type : M state string := gets __type.
Definition get_preferences : M state Obj := gets preferences.
Definition get_interface : M state Obj := gets Interface.

(** The body of the loop of [start_models], for one key of the registry. *)
Definition start_models_body (coin_iterator : string) : M state unit :=
  e <- models_getitem coin_iterator ;;
  running <- call (IsRunning (model e)) (is_running (model e)) ;;
  if negb running then
    e1 <- models_getitem coin_iterator ;;
    e2 <- models_getitem coin_iterator ;;
    call (Run (model e1) (args e2)) (run (model e1) (args e2)) ;;
    time_sleep (1 # 10)
  else
    print ("Ignoring the model on " +:+ coin_iterator).

Definition start_models (coin_id : option string) : M state unit :=
  match coin_id with
  | Some coin_id =>
      e <- models_getitem coin_id ;;
      running <- call (IsRunning (model e)) (is_running (model e)) ;;
      if negb running then
        e1 <- models_getitem coin_id ;;
        e2 <- models_getitem coin_id ;;
        call (Run (model e1) (args e2)) (run (model e1) (args e2))
      else ret tt
  | None =>
      keys <- gets (λ s, dict_keys (models s)) ;;
      for_each keys start_models_body
  end.

Definition __get_model (coin : string) : M state Obj :=
  e <- models_getitem coin ;; ret (model e).

Definition get_model_state (currency : string) : M state Obj :=
  m <- __get_model currency ;; call (GetState m) (get_state m).

Definition get_full_state (currency : string) : M state full_state :=
  state <- call (GetAssetState currency) (get_asset_state currency) ;;
  model_state <- get_model_state currency ;;
  ret {| fs_account := state; fs_model := model_state |}.

Definition write_value (currency : string) (key value : Obj) : M state unit :=
  m <- __get_model currency ;;
  call (UpdateState m key value) (update_state m key value).

Definition append_model (model0 : Obj) (coin_id : string) (args0 : Obj)
    : M state unit :=
  let added_model := model0 in
  modify (set_models
            (dict_set coin_id {| model := added_model; args := args0 |})) ;;
  exchange_type <- gets __type ;;
  prefs <- gets preferences ;;
  initial_state <- get_full_state coin_id ;;
  interface <- gets Interface ;;
  call (Setup model0 exchange_type coin_id prefs initial_state interface)
       (setup model0 exchange_type coin_id prefs initial_state interface).

(** *** What the bulk start is to do, entry by entry

    The spec's words for [start] without a symbol: go through the entries
    in insertion order; ask each model whether it runs; run it (and pause)
    when it does not, print a line and go on when it does. *)
Inductive bulk_start : list (string * entry) → W → list event → W → Prop :=
| bulk_start_done w :
    bulk_start [] w [] w
| bulk_start_skip coin e rest w w1 evs w' :
    is_running (model e) w = (inr true, w1) →
    bulk_start rest w1 evs w' →
    bulk_start ((coin, e) :: rest) w
      (IsRunning (model e) (inr true)
         :: Print ("Ignoring the model on " +:+ coin) :: evs) w'
| bulk_start_run coin e rest w w1 w2 evs w' :
    is_running (model e) w = (inr false, w1) →
    run (model e) (args e) w1 = (inr tt, w2) →
    bulk_start rest w2 evs w' →
    bulk_start ((coin, e) :: rest) w
      (IsRunning (model e) (inr false)
         :: Run (model e) (args e) (inr tt) :: Sleep (1 # 10) :: evs) w'.

(** The models that were run, in the order of their runs. *)
Definition started (evs : list event) : list Obj :=
  omap (λ ev, match ev with Run m _ _ => Some m | _ => None end) evs.

(** The models that were asked whether they run. *)
Definition queried (evs : list event) : list Obj :=
  omap (λ ev, match ev with IsRunning m _ => Some m | _ => None end) evs.

Definition registered (d : list (string * entry)) : list Obj :=
  (λ ke, model ke.2) <$> d.

Definition is_setup (ev : event) : bool :=
  match ev with Setup _ _ _ _ _ _ _ => true | _ => false end.

(** The spec's words about attaching, at one input: when [setup] is called,
    the registry does not hold the new entry yet. *)
Definition setup_before_store (s : state) (model0 : Obj) (coin_id : string)
    (args0 : Obj) : Prop :=
  ∀ lg,
    lg ∈ drop (List.length (trace s))
           (trace (append_model model0 coin_id args0 s).2) →
    is_setup (what lg) = true →
    dict_get coin_id (at_models lg)
    ≠ Some {| model := model0; args := args0 |}.

End exchange.

(** *** [construct_interface] *)
Section interfaces.

Context {Obj W : Type}.

(** The two interface classes that [construct_interface] instantiates, with
    the exchange type and the calls.  They are collaborators: an
    instantiation moves the world and returns the new interface or
    raises. *)
Class InterfaceClasses : Type := {
  CoinbaseProInterface : string → Obj → W → (string + Obj) * W;
  BinanceInterface : string → Obj → W → (string + Obj) * W
}.

Context `{!InterfaceClasses}.

Definition set_Interface (i : Obj) (s : @state Obj W) : @state Obj W :=
  {| __type := __type s; __name := __name s; preferences := preferences s;
     Interface := i; models := models s; world := world s;
     trace := trace s |}.

Definition set_world (w : W) (s : @state Obj W) : @state Obj W :=
  {| __type := __type s; __name := __name s; preferences := preferences s;
     Interface := Interface s; models := models s; world := w;
     trace := trace s |}.

Definition instantiate (class : W → (string + Obj) * W)
    : M (@state Obj W) Obj :=
  λ s, let '(r, w) := class (world s) in (lift_outcome r, set_world w s).

Definition construct_interface (calls : Obj) : M (@state Obj W) unit :=
  exchange_type <- gets __type ;;
  if decide (exchange_type = "coinbase_pro") then
    i <- instantiate (CoinbaseProInterface exchange_type calls) ;;
    modify (set_Interface i)
  else if decide (exchange_type = "binance") then
    i <- instantiate (BinanceInterface exchange_type calls) ;;
    modify (set_Interface i)
  else ret tt.

End interfaces.

(** The events that are calls of a model: all but the pauses and the
    printed lines. *)
Definition is_model_call {Obj : Type} (ev : @event Obj) : bool :=
  match ev with
  | Sleep _ | Print _ => false
  | _ => true
  end.

(** *** A concrete exchange

    Objects are strings and the world is the list of the names of the
    models that run.  [run] makes a model running; the model named broken
    raises in [setup]. *)
Definition bots : @ModelRuntime string (list string) := {|
  setup m _ _ _ _ _ w :=
    (if decide (m = "broken") then inl "setup failed" else inr tt, w);
  run m _ w := (inr tt, m :: w);
  is_running m w := (inr (bool_decide (m ∈ w)), w);
  get_state m w := (inr ("state of " +:+ m), w);
  update_state _ _ _ w := (inr tt, w)
|}.

Definition paper : @AssetState string (list string) := {|
  get_asset_state symbol w := (inr ("assets of " +:+ symbol), w)
|}.

Definition empty_desk : @state string (list string) :=
  __init__ "coinbase_pro" "my_cool_portfolio" "interface" "preferences" [].

Definition btc_entry : @entry string :=
  {| model := "btc_bot"; args := "fast" |}.
Definition eth_entry : @entry string :=
  {| model := "eth_bot"; args := "slow" |}.

(** Two models attached, the second one already running. *)
Definition desk : @state string (list string) :=
  {| __type := "coinbase_pro"; __name := "my_cool_portfolio";
     preferences := "preferences"; Interface := "interface";
     models := [("BTC-USD", btc_entry); ("ETH-USD", eth_entry)];
     world := ["eth_bot"]; trace := [] |}.

(** Models of which the one named broken raises when it is run. *)
Definition faulty_bots : @ModelRuntime string (list string) := {|
  setup _ _ _ _ _ _ w := (inr tt, w);
  run m _ w := if decide (m = "broken") then (inl "run failed", w)
               else (inr tt, m :: w);
  is_running m w := (inr (bool_decide (m ∈ w)), w);
  get_state m w := (inr ("state of " +:+ m), w);
  update_state _ _ _ w := (inr tt, w)
|}.

(** Three models attached, none running; the second one is broken. *)
Definition faulty_desk : @state string (list string) :=
  {| __type := "binance"; __name := "my_cool_portfolio";
     preferences := "preferences"; Interface := "interface";
     models := [("BTC-USD", btc_entry);
                ("XLM-USD", {| model := "broken"; args := "fast" |});
                ("ETH-USD", eth_entry)];
     world := []; trace := [] |}.

End Exchange.

(** ** The signal pipeline: [signal.py] *)

Module Signal.

(** *** Python values and the object store

    The results of an evaluator are Python data: atoms and dicts with string
    keys, which may share parts and may be cyclic.  A dict is an object in
    the store, known by its location; a value is an atom or a reference. *)
Inductive val : Type :=
| VNone
| VBool (b : bool)
| VInt (z : Z)
| VStr (s : string)
| VRef (l : nat).

#[global] Instance val_eq_dec : EqDecision val.
Proof. solve_decision. Defined.

Abbreviation dict := (gmap string val).
Abbreviation heap := (gmap nat (gmap string val)).

(** A value that is a reference points into the store. *)
Definition val_in (h : heap) (v : val) : Prop :=
  match v with VRef l => l ∈ dom h | _ => True end.

(** No object of the store holds a reference that points outside it. *)
Definition closed (h : heap) : Prop :=
  ∀ l d k v, h !! l = Some d → d !! k = Some v → val_in h v.


(** Two values look the same down to depth [n]: the same atoms, and dicts
    with the same keys whose items look the same one level less deep. *)
Fixpoint same_value (n : nat) (h1 : heap) (v1 : val) (h2 : heap) (v2 : val)
    : bool :=
  match v1, v2 with
  | VRef l1, VRef l2 =>
      match n with
      | O => true
      | S n' =>
          match h1 !! l1, h2 !! l2 with
          | Some d1, Some d2 =>
              bool_decide (dom d1 = dom d2) &&
              forallb (λ kv, match d2 !! kv.1 with
                             | Some v => same_value n' h1 kv.2 h2 v
                             | None => false
                             end) (map_to_list d1)
          | _, _ => false
          end
      end
  | VRef _, _ | _, VRef _ => false
  | _, _ => bool_decide (v1 = v2)
  end.

(** *** [copy.deepcopy]

    The library function, on this data: an atom is its own copy; a dict
    that the memo knows is copied as the memo says; any other dict gets a
    new empty dict, which is put in the memo at once and then filled item
    by item with the copies of the values.  The items are taken in the
    order of [map_to_list]: the locations that the new dicts get depend on
    it and, where dicts are shared, how deep the recursion goes.  [fuel] is
    the number of dicts inside one another that can still be entered; a
    dict that needs one more is not copied, and the result is [None]. *)
Section deepcopy.

Context (deepcopy_value :
  val → gmap nat nat → heap → option (val * gmap nat nat * heap)).

Fixpoint deepcopy_items (y : nat) (items : list (string * val))
    (memo : gmap nat nat) (h : heap) : option (gmap nat nat * heap) :=
  match items with
  | [] => Some (memo, h)
  | (key, value) :: rest =>
      match deepcopy_value value memo h with
      | Some (value', memo1, h1) =>
          match h1 !! y with
          | Some yd =>
              deepcopy_items y rest memo1 (<[y := <[key := value']> yd]> h1)
          | None => None
          end
      | None => None
      end
  end.

End deepcopy.

Fixpoint deepcopy_rec (fuel : nat) (x : val) (memo : gmap nat nat) (h : heap)
    : option (val * gmap nat nat * heap) :=
  match x with
  | VRef l =>
      match memo !! l with
      | Some y => Some (VRef y, memo, h)
      | None =>
          match fuel with
          | O => None
          | S fuel' =>
              match h !! l with
              | Some d =>
                  let y := fresh (dom h) in
                  match deepcopy_items (deepcopy_rec fuel') y (map_to_list d)
                          (<[l := y]> memo) (<[y := ∅]> h) with
                  | Some (memo', h') => Some (VRef y, memo', h')
                  | None => None
                  end
              | None => None
              end
          end
      end
  | _ => Some (x, memo, h)
  end.

(** The interpreter.  Python bounds the depth of recursion, and
    [copy.deepcopy] calls itself for every dict inside a dict.
    [recursion_limit] is the number of dicts inside one another that it can
    copy where the signal calls it; it comes from
    [sys.getrecursionlimit()] and from the depth of the stack at the
    call. *)
Class Interpreter : Type := { recursion_limit : nat }.

Section signal.

Context {interpreter : Interpreter}.

(** [deepcopy(x)]: an empty memo, and the fuel the interpreter gives.
    [None] is Python's [RecursionError]: in a closed store nothing else
    stops the copy, and there it returns when the store has no more objects
    than the limit. *)
Definition deepcopy (x : val) (h : heap) : option (val * heap) :=
  match deepcopy_rec recursion_limit x ∅ h with
  | Some (y, _, h') => Some (y, h')
  | None => None
  end.

(** *** The signal *)

(** A Python callable: given its arguments and the store, it returns a
    value or raises, and leaves a store.  A callable acts on the objects of
    the store only: the list of symbols and the attributes of the signal
    are not objects of the store, so the callables of the embedding leave
    them alone. *)
Definition callable : Type := list val → heap → (string + val) * heap.

(** The dict [self.__callables]; [None] stands for an object that
    [callable()] says is not callable. *)
Record callables : Type := {
  evaluator : option callable;
  init : option callable;
  teardown : option callable;
  formatter : option callable
}.

(** A call of one of the callables, with its arguments and its outcome;
    a message handed to [blankly.reporter.email]. *)
Inductive event : Type :=
| Called (name : string) (arguments : list val) (r : string + val)
| Emailed (content : val).

Record state : Type := {
  exchange : val;
  interface : val;
  symbols : list string;
  __callables : callables;
  signal_state : val;
  raw_results : val;
  formatted_results : val;
  store : heap;
  trace : list event
}.

Definition set_store (h : heap) (s : state) : state :=
  {| exchange := exchange s; interface := interface s;
     symbols := symbols s; __callables := __callables s;
     signal_state := signal_state s; raw_results := raw_results s;
     formatted_results := formatted_results s; store := h;
     trace := trace s |}.

Definition set_signal_state (v : val) (s : state) : state :=
  {| exchange := exchange s; interface := interface s;
     symbols := symbols s; __callables := __callables s;
     signal_state := v; raw_results := raw_results s;
     formatted_results := formatted_results s; store := store s;
     trace := trace s |}.

Definition set_raw_results (v : val) (s : state) : state :=
  {| exchange := exchange s; interface := interface s;
     symbols := symbols s; __callables := __callables s;
     signal_state := signal_state s; raw_results := v;
     formatted_results := formatted_results s; store := store s;
     trace := trace s |}.

Definition set_formatted_results (v : val) (s : state) : state :=
  {| exchange := exchange s; interface := interface s;
     symbols := symbols s; __callables := __callables s;
     signal_state := signal_state s; raw_results := raw_results s;
     formatted_results := v; store := store s;
     trace := trace s |}.

(** The state after the callables left the store [h] and their calls were
    logged. *)
Definition after_calls (s : state) (h : heap) (evs : list event) : state :=
  {| exchange := exchange s; interface := interface s;
     symbols := symbols s; __callables := __callables s;
     signal_state := signal_state s; raw_results := raw_results s;
     formatted_results := formatted_results s; store := h;
     trace := trace s ++ evs |}.

Definition invoke (name : string) (f : callable) (arguments : list val)
    : M state val :=
  λ s, let '(r, h) := f arguments (store s) in
       (lift_outcome r, after_calls s h [Called name arguments r]).

(** [{}]: a new empty dict. *)
Definition new_dict : M state val :=
  λ s, let l := fresh (dom (store s)) in
       (Ok (VRef l), set_store (<[l := ∅]> (store s)) s).

(** [target[key] = value] *)
Definition setitem (target : val) (key : string) (value : val)
    : M state unit :=
  λ s, match target with
       | VRef l =>
           match store s !! l with
           | Some d =>
               (Ok tt, set_store (<[l := <[key := value]> d]> (store s)) s)
           | None =>
               (Raise (TypeError "object does not support item assignment"),
                s)
           end
       | _ =>
           (Raise (TypeError "object does not support item assignment"), s)
       end.

Definition deepcopy_m (x : val) : M state val :=
  λ s, match deepcopy x (store s) with
       | Some (y, h) => (Ok y, set_store h s)
       | None => (Raise RecursionError, s)
       end.

(** [__run], lines 74 to 76: the optional init. *)
Definition run_init : M state unit :=
  init <- gets (λ s, init (__callables s)) ;;
  match init with
  | Some init =>
      st <- gets signal_state ;; invoke "init" init [st] ;; ret tt
  | None => ret tt
  end.

(** Lines 88 to 90: the evaluator must be callable. *)
Definition require_evaluator : M state callable :=
  evaluator <- gets (λ s, evaluator (__callables s)) ;;
  match evaluator with
  | Some evaluator => ret evaluator
  | None => raise (TypeError "Must pass a callable for the evaluator.")
  end.

(** Lines 92 and 93: the loop over the symbols. *)
Definition run_symbol (evaluator : callable) (i : string) : M state unit :=
  st <- gets signal_state ;;
  result <- invoke "evaluator" evaluator [VStr i; st] ;;
  raw <- gets raw_results ;;
  setitem raw i result.

Definition run_symbols (evaluator : callable) : M state unit :=
  symbols <- gets symbols ;;
  for_each symbols (run_symbol evaluator).

(** Line 96: the copy. *)
Definition copy_results : M state unit :=
  raw <- gets raw_results ;;
  copy <- deepcopy_m raw ;;
  modify (set_formatted_results copy).

(** Lines 98 to 101: the optional formatter, on the copy. *)
Definition run_formatter : M state unit :=
  formatter <- gets (λ s, formatter (__callables s)) ;;
  match formatter with
  | Some formatter =>
      formatted <- gets formatted_results ;;
      st <- gets signal_state ;;
      result <- invoke "formatter" formatter [formatted; st] ;;
      modify (set_formatted_results result)
  | None => ret tt
  end.

(** Lines 103 to 105: the optional teardown. *)
Definition run_teardown : M state unit :=
  teardown <- gets (λ s, teardown (__callables s)) ;;
  match teardown with
  | Some teardown =>
      st <- gets signal_state ;; invoke "teardown" teardown [st] ;; ret tt
  | None => ret tt
  end.

(** [__run] up to the end of the loop, up to and including the copy, and
    all of it. *)
Definition run_through_loop : M state unit :=
  run_init ;;
  evaluator <- require_evaluator ;;
  run_symbols evaluator.

Definition run_through_copy : M state unit :=
  run_init ;;
  evaluator <- require_evaluator ;;
  run_symbols evaluator ;;
  copy_results.

Definition __run : M state unit :=
  run_through_copy ;;
  run_formatter ;;
  run_teardown.

(** [notify]: the formatted results, or [output] when it is not [None], go
    to [blankly.reporter.email].  [output] is [VNone] when the caller leaves
    it out. *)
Definition notify (output : val) : M state unit :=
  use_str <- gets formatted_results ;;
  let use_str := if decide (output = VNone) then use_str else output in
  λ s, (Ok tt, after_calls s (store s) [Emailed use_str]).

(** Modelled from the spec: the class [SignalState] is not among the
    sources; the spec calls its instance a shared mutable signal-state
    handle.  It is a new object of the store, empty at first. *)
Definition SignalState : M state val := new_dict.

(** [Signal.__init__], in the store [h].  [exchange_interface] is what
    [exchange.interface] gives. *)
Definition __init__ (h : heap) (exchange exchange_interface : val)
    (evaluator : option callable) (symbols : list string)
    (init teardown formatter : option callable) : res unit * state :=
  (st <- SignalState ;;
   modify (set_signal_state st) ;;
   raw <- new_dict ;;
   modify (set_raw_results raw) ;;
   formatted <- new_dict ;;
   modify (set_formatted_results formatted) ;;
   __run)
    {| exchange := exchange; interface := exchange_interface;
       symbols := symbols;
       __callables := {| evaluator := evaluator; init := init;
                         teardown := teardown; formatter := formatter |};
       signal_state := VNone; raw_results := VNone;
       formatted_results := VNone; store := h; trace := [] |}.

(** The signal as [__init__] has it when it calls [__run]: the signal
    state, the raw results and the formatted results are three new empty
    objects. *)
Definition new_signal (h : heap) (exchange exchange_interface : val)
    (evaluator : option callable) (symbols : list string)
    (init teardown formatter : option callable) : state :=
  let l_state := fresh (dom h) in
  let h1 := <[l_state := ∅]> h in
  let l_raw := fresh (dom h1) in
  let h2 := <[l_raw := ∅]> h1 in
  let l_formatted := fresh (dom h2) in
  {| exchange := exchange; interface := exchange_interface;
     symbols := symbols;
     __callables := {| evaluator := evaluator; init := init;
                       teardown := teardown; formatter := formatter |};
     signal_state := VRef l_state; raw_results := VRef l_raw;
     formatted_results := VRef l_formatted;
     store := <[l_formatted := ∅]> h2; trace := [] |}.

(** A callable that behaves: in a closed store that holds the object [lr],
    it returns, the store it leaves is closed and has lost no object, the
    value it returns is in that store, and it has not written [lr]. *)
Definition tame (lr : nat) (f : callable) : Prop :=
  ∀ arguments h, closed h → lr ∈ dom h →
    ∃ v h', f arguments h = (inr v, h') ∧
            closed h' ∧ val_in h' v ∧ dom h ⊆ dom h' ∧ h' !! lr = h !! lr.

(** The calls of the evaluator, one per symbol, with what they returned. *)
Definition evaluations (st : val) (symbols : list string) (results : list val)
    : list event :=
  zip_with (λ i v, Called "evaluator" [VStr i; st] (inr v)) symbols results.

(** The dict that results from assigning the results to the symbols, in
    order, in the dict [d]. *)
Definition assigned (d : dict) (symbols : list string) (results : list val)
    : dict :=
  foldl (λ a kv, <[kv.1 := kv.2]> a) d (zip symbols results).

(** The event of the optional init. *)
Definition init_events (s : state) : list event :=
  match init (__callables s) with
  | Some f =>
      [Called "init" [signal_state s] (f [signal_state s] (store s)).1]
  | None => []
  end.

(** *** What a copy is

    What the memo makes of a value. *)
Definition ren (memo : gmap nat nat) (v : val) : val :=
  match v with
  | VRef l => match memo !! l with Some y => VRef y | None => v end
  | _ => v
  end.

Definition known (memo : gmap nat nat) (v : val) : Prop :=
  match v with VRef l => is_Some (memo !! l) | _ => True end.

Section copy_relation.

(** [h0] is the store in which [deepcopy] is called. *)
Context (h0 : heap).

(** While the copy is made, the store extends [h0], and the memo sends
    objects of [h0] to objects outside [h0]. *)
Record inv (memo : gmap nat nat) (h : heap) : Prop := {
  inv_old : h0 ⊆ h;
  inv_memo : ∀ l y, memo !! l = Some y →
             is_Some (h0 !! l) ∧ is_Some (h !! y) ∧ h0 !! y = None
}.

(** The object [l] of [h0] has its finished copy in [h]. *)
Definition copied (memo : gmap nat nat) (h : heap) (l : nat) : Prop :=
  ∃ y d, memo !! l = Some y ∧ h0 !! l = Some d ∧
         h !! y = Some (ren memo <$> d) ∧
         ∀ k v, d !! k = Some v → known memo v.

Record post (x : val) (memo : gmap nat nat) (h : heap)
    (x' : val) (memo' : gmap nat nat) (h' : heap) : Prop := {
  post_memo : memo ⊆ memo';
  post_heap : h ⊆ h';
  post_inv : inv memo' h';
  post_val : x' = ren memo' x;
  post_known : known memo' x;
  post_copied : ∀ l, is_Some (memo' !! l) → memo !! l = None →
                copied memo' h' l;
  post_fresh : ∀ l y, memo' !! l = Some y → memo !! l = None → h !! y = None
}.


End copy_relation.


(** *** The course of a run *)

(** What the optional init does in the store of [s]; without a callable
    init nothing happens. *)
Definition init_outcome (s : state) : (string + val) * heap :=
  match init (__callables s) with
  | Some f => f [signal_state s] (store s)
  | None => (inr VNone, store s)
  end.

(** The loop over the symbols as long as the evaluator returns: from the
    store [h], the evaluator is called with the symbol and the signal state
    [st], and what it returns is assigned to the symbol in the dict at [lr]
    as the call left it. *)
Inductive evaluated (ev : callable) (st : val) (lr : nat)
    : list string → heap → list val → heap → Prop :=
| evaluated_nil h :
    evaluated ev st lr [] h [] h
| evaluated_cons i syms h v h1 d results h' :
    ev [VStr i; st] h = (inr v, h1) →
    h1 !! lr = Some d →
    evaluated ev st lr syms (<[lr := <[i := v]> d]> h1) results h' →
    evaluated ev st lr (i :: syms) h (v :: results) h'.

(** [s'] is [s] after the events [evs]: the bindings of the signal are the
    same, apart from the formatted results, and the trace has grown by
    [evs].  The objects of the store may have changed. *)
Record grown (s s' : state) (evs : list event) : Prop := {
  grown_exchange : exchange s' = exchange s;
  grown_interface : interface s' = interface s;
  grown_symbols : symbols s' = symbols s;
  grown_callables : __callables s' = __callables s;
  grown_signal_state : signal_state s' = signal_state s;
  grown_raw_results : raw_results s' = raw_results s;
  grown_trace : trace s' = trace s ++ evs
}.

Definition call_name (ev : event) : string :=
  match ev with
  | Called name _ _ => name
  | Emailed _ => "email"
  end.

(** From [s], the computation [c] makes the calls [names], in this order,
    as far as it gets; all of them when it returns. *)
Definition obeys {A} (c : M state A) (names : list string) (s : state)
    : Prop :=
  ∃ evs, grown s (c s).2 evs ∧
         call_name <$> evs `prefix_of` names ∧
         ((∃ a, (c s).1 = Ok a) → call_name <$> evs = names).

Definition once (name : string) (f : option callable) : list string :=
  match f with Some _ => [name] | None => [] end.



End signal.

(** *** A concrete signal *)

(** An interpreter for the examples, which lets [deepcopy] go a hundred
    dicts deep, and one that lets it go two deep. *)
Definition roomy : Interpreter := {| recursion_limit := 100 |}.
Definition tight : Interpreter := {| recursion_limit := 2 |}.


(** An evaluator that returns a new dict with one item, and a formatter
    that overwrites the dict it is given. *)
Definition classify : callable :=
  λ _ h, let l := fresh (dom h) in
         (inr (VRef l), <[l := {[ "classification" := VBool true ]}]> h).

Definition overwrite : callable :=
  λ arguments h,
    match arguments with
    | VRef l :: _ => (inr (VRef l), <[l := {[ "report" := VStr "done" ]}]> h)
    | _ => (inl "TypeError", h)
    end.

(** The signal of the spec's example: the symbols A and B, no formatter. *)
Definition two_symbols : state :=
  new_signal ∅ VNone VNone (Some classify) ["A"; "B"] None None None.

(** An evaluator that has no data for the symbol B, and a signal that
    comes to B after A. *)
Definition picky : callable :=
  λ arguments h,
    match arguments with
    | VStr "B" :: _ => (inl "no data", h)
    | _ => classify arguments h
    end.

Definition three_symbols : state :=
  new_signal ∅ VNone VNone (Some picky) ["A"; "B"; "C"] None None
    (Some overwrite).

(** A signal in which the symbol A is listed twice, and one with the
    overwriting formatter. *)
Definition twice : state :=
  new_signal ∅ VNone VNone (Some classify) ["A"; "B"; "A"] None None None.

Definition reporting : state :=
  new_signal ∅ VNone VNone (Some classify) ["A"] None None (Some overwrite).




(** An evaluator whose result has notes, a dict inside the dict. *)
Definition annotate : callable :=
  λ _ h,
    let notes := fresh (dom h) in
    let h1 := <[notes := {[ "current_rsi" := VInt 45 ]}]> h in
    let l := fresh (dom h1) in
    (inr (VRef l), <[l := {[ "notes" := VRef notes ]}]> h1).

Definition annotated : state :=
  new_signal ∅ VNone VNone (Some annotate) ["A"] None None None.

(** The item under [key] of the dict at [l], and the number of its items. *)
Definition item (h : heap) (l : nat) (key : string) : option val :=
  match h !! l with Some d => d !! key | None => None end.

Definition items (h : heap) (l : nat) : option nat :=
  match h !! l with Some d => Some (size d) | None => None end.

End Signal.

(** * Part II: what the programs do *)

(** ** Loops *)

Module PyFacts.

Import Py.

Lemma for_each_app {S A} (xs ys : list A) (body : A → M S unit) (s : S) :
  for_each (xs ++ ys) body s = (for_each xs body ;; for_each ys body) s.
Proof.
  revert s. induction xs as [|x xs IH]; intros s; [done|].
  cbn [app for_each]. unfold bind in *.
  destruct (body x s) as [[[]|err] s1]; [|done].
  apply IH.
Qed.

End PyFacts.

(** ** The local paper-trading account *)

Module LedgerFacts.

Import Ledger.

Section ledger.

Context {num : Type} {numbers : Number num} {utils : Utils}.

(** The base leg alone, as the first [try] block leaves the account. *)
Lemma trade_local_base_missing account currency_pair side base_delta quote_delta :
  account !! get_base_currency currency_pair = None →
  trade_local currency_pair side base_delta quote_delta account
  = (Raise (KeyError "Base currency specified not found in local account"),
     account).
Proof.
  intros Hb. unfold trade_local, bind, try_except_KeyError, getitem.
  by rewrite Hb.
Qed.

Lemma trade_local_quote_missing account currency_pair side base_delta
    quote_delta b :
  account !! get_base_currency currency_pair = Some b →
  account !! get_quote_currency currency_pair = None →
  trade_local currency_pair side base_delta quote_delta account
  = (Raise (KeyError "Quote currency specified not found in local account"),
     <[get_base_currency currency_pair := add b base_delta]> account).
Proof.
  intros Hb Hq. unfold trade_local, bind, try_except_KeyError, getitem,
    setitem, modify.
  rewrite Hb. rewrite lookup_insert_ne by congruence. by rewrite Hq.
Qed.

Lemma trade_local_both_present account currency_pair side base_delta
    quote_delta b :
  account !! get_base_currency currency_pair = Some b →
  is_Some (account !! get_quote_currency currency_pair) →
  ∃ q, <[get_base_currency currency_pair := add b base_delta]> account
         !! get_quote_currency currency_pair = Some q ∧
    trade_local currency_pair side base_delta quote_delta account
    = (Ok tt,
       <[get_quote_currency currency_pair := add q quote_delta]>
         (<[get_base_currency currency_pair := add b base_delta]> account)).
Proof.
  intros Hb [q0 Hq].
  set (a1 := <[get_base_currency currency_pair := add b base_delta]> account).
  assert (is_Some (a1 !! get_quote_currency currency_pair)) as [q Hq1].
  { unfold a1. rewrite lookup_insert. case_decide; eauto. }
  exists q. split; [done|].
  unfold trade_local, bind, try_except_KeyError, getitem, setitem, modify.
  rewrite Hb. fold a1. by rewrite Hq1.
Qed.

(** When base and quote are the same code, both deltas land on the one
    balance, the base delta first. *)
Lemma trade_local_same_currency account currency_pair side base_delta
    quote_delta b :
  get_base_currency currency_pair = get_quote_currency currency_pair →
  account !! get_base_currency currency_pair = Some b →
  trade_local currency_pair side base_delta quote_delta account
  = (Ok tt, <[get_base_currency currency_pair :=
                add (add b base_delta) quote_delta]> account).
Proof.
  intros Heq Hb.
  destruct (trade_local_both_present account currency_pair side base_delta
              quote_delta b Hb) as (q & Hq & ->).
  { rewrite <- Heq. eauto. }
  rewrite <- Heq in *. rewrite lookup_insert_eq in Hq. injection Hq as <-.
  by rewrite insert_insert_eq.
Qed.

(** C1 (amended).  A trade on a symbol whose base or quote code is missing
    from the account raises [KeyError] and leaves the quote balance as it
    was.  When the base code is missing, nothing at all is written.  When
    only the quote code is missing, the base leg has already been applied:
    the account the exception leaves behind has [base_delta] added to the
    base balance, and nothing else changed. *)
Theorem trade_local_unknown_currency account currency_pair side base_delta
    quote_delta :
  let base := get_base_currency currency_pair in
  let quote := get_quote_currency currency_pair in
  account !! base = None ∨ account !! quote = None →
  ∃ msg account',
    trade_local currency_pair side base_delta quote_delta account
    = (Raise (KeyError msg), account') ∧
    account' !! quote = account !! quote ∧
    (account !! base = None →
       account' = account ∧
       msg = "Base currency specified not found in local account") ∧
    (∀ b, account !! base = Some b →
       account' = <[base := add b base_delta]> account ∧
       msg = "Quote currency specified not found in local account").
Proof.
  intros base quote Hmiss.
  destruct (account !! base) as [b|] eqn:Hb.
  - destruct Hmiss as [?|Hq]; [done|].
    eexists _, _. split.
    { by apply trade_local_quote_missing. }
    split; [|split].
    + apply lookup_insert_ne. fold base quote. congruence.
    + done.
    + intros b' [= <-]. done.
  - eexists _, _. split.
    { by apply trade_local_base_missing. }
    split; [done|]. split; [done|]. intros b' ?; done.
Qed.

(** C3 (amended).  On a symbol whose base and quote codes are distinct and
    both in the account, the trade returns normally, the account it leaves
    is the old one with [base_delta] added to the base balance and
    [quote_delta] added to the quote balance, and every other balance is as
    before. *)
Theorem trade_local_applies_both_legs account currency_pair side base_delta
    quote_delta b q :
  let base := get_base_currency currency_pair in
  let quote := get_quote_currency currency_pair in
  base ≠ quote →
  account !! base = Some b →
  account !! quote = Some q →
  ∃ account',
    trade_local currency_pair side base_delta quote_delta account
    = (Ok tt, account') ∧
    account' = <[quote := add q quote_delta]>
                 (<[base := add b base_delta]> account) ∧
    account' !! base = Some (add b base_delta) ∧
    account' !! quote = Some (add q quote_delta) ∧
    ∀ c, c ≠ base → c ≠ quote → account' !! c = account !! c.
Proof.
  intros base quote Hne Hb Hq.
  destruct (trade_local_both_present account currency_pair side base_delta
              quote_delta b Hb) as (q' & Hq' & Hrun); [by eauto|].
  fold base quote in Hq', Hrun.
  rewrite lookup_insert_ne in Hq' by done.
  assert (q' = q) as -> by congruence.
  eexists. split; [exact Hrun|]. split; [done|].
  split; [|split].
  - rewrite lookup_insert_ne by done. apply lookup_insert_eq.
  - apply lookup_insert_eq.
  - intros c Hcb Hcq. by rewrite !lookup_insert_ne.
Qed.

(** C9.  The [side] argument is never read: two calls that differ only in
    it leave the same account and end the same way. *)
Theorem trade_local_ignores_side account currency_pair side1 side2
    base_delta quote_delta :
  trade_local currency_pair side1 base_delta quote_delta account
  = trade_local currency_pair side2 base_delta quote_delta account.
Proof. reflexivity. Qed.

(** *** More about trades *)

Lemma trade_local_dom account currency_pair side base_delta quote_delta :
  dom (trade_local currency_pair side base_delta quote_delta account).2
  = dom account.
Proof.
  destruct (account !! get_base_currency currency_pair) as [b|] eqn:Hb.
  - assert (dom (<[get_base_currency currency_pair := add b base_delta]>
                   account) = dom account) as Hdom.
    { apply dom_insert_lookup_L. eauto. }
    destruct (account !! get_quote_currency currency_pair) as [q|] eqn:Hq.
    + destruct (trade_local_both_present account currency_pair side base_delta
                  quote_delta b Hb) as (q' & Hq' & ->); [eauto|].
      cbn [snd]. rewrite dom_insert_lookup_L by eauto. exact Hdom.
    + by rewrite (trade_local_quote_missing account currency_pair side
                    base_delta quote_delta b Hb Hq).
  - by rewrite (trade_local_base_missing account currency_pair side
                  base_delta quote_delta Hb).
Qed.

(** X1.  A trade never adds a currency to the account and never removes
    one, however it ends. *)
Theorem trade_local_keeps_currencies account currency_pair side base_delta
    quote_delta :
  dom (trade_local currency_pair side base_delta quote_delta account).2
  = dom account.
Proof. apply trade_local_dom. Qed.

(** X2.  How a trade ends says what the account holds: it returns exactly
    when both codes are there, it raises with the message about the base
    exactly when the base code is missing, and with the message about the
    quote exactly when the base code is there and the quote code is not. *)
Theorem trade_local_outcome account currency_pair side base_delta
    quote_delta :
  let base := get_base_currency currency_pair in
  let quote := get_quote_currency currency_pair in
  let r := (trade_local currency_pair side base_delta quote_delta account).1 in
  (r = Ok tt ↔ is_Some (account !! base) ∧ is_Some (account !! quote)) ∧
  (r = Raise (KeyError "Base currency specified not found in local account")
   ↔ account !! base = None) ∧
  (r = Raise (KeyError "Quote currency specified not found in local account")
   ↔ is_Some (account !! base) ∧ account !! quote = None).
Proof.
  intros base quote r. subst base quote r.
  destruct (account !! get_base_currency currency_pair) as [b|] eqn:Hb.
  - destruct (account !! get_quote_currency currency_pair) as [q|] eqn:Hq.
    + destruct (trade_local_both_present account currency_pair side base_delta
                  quote_delta b Hb) as (q' & Hq' & ->); [eauto|].
      cbn [fst]. split; [|split].
      * split; eauto.
      * split; intros; discriminate.
      * split; [intros; discriminate|]. intros [_ ?]; discriminate.
    + rewrite (trade_local_quote_missing account currency_pair side
                 base_delta quote_delta b Hb Hq).
      cbn [fst]. split; [|split].
      * split; [intros; discriminate|]. intros [_ [? ?]]; discriminate.
      * split; intros; discriminate.
      * split; eauto.
  - rewrite (trade_local_base_missing account currency_pair side
               base_delta quote_delta Hb).
    cbn [fst]. split; [|split].
    + split; [intros; discriminate|]. intros [[? ?] _]; discriminate.
    + done.
    + split; [intros; discriminate|]. intros [[? ?] _]; discriminate.
Qed.

(** X3.  Two trades on symbols that share no currency code, all four codes
    in the account: both orders return, and they leave the same account. *)
Theorem trade_local_disjoint_commute account pair1 side1 base1 quote1
    pair2 side2 base2 quote2 :
  let b1 := get_base_currency pair1 in
  let q1 := get_quote_currency pair1 in
  let b2 := get_base_currency pair2 in
  let q2 := get_quote_currency pair2 in
  b1 ≠ b2 → b1 ≠ q2 → q1 ≠ b2 → q1 ≠ q2 →
  is_Some (account !! b1) → is_Some (account !! q1) →
  is_Some (account !! b2) → is_Some (account !! q2) →
  ∃ account',
    (trade_local pair1 side1 base1 quote1 ;;
     trade_local pair2 side2 base2 quote2) account = (Ok tt, account') ∧
    (trade_local pair2 side2 base2 quote2 ;;
     trade_local pair1 side1 base1 quote1) account = (Ok tt, account').
Proof.
  intros b1 q1 b2 q2 Hbb Hbq Hqb Hqq [x1 Hb1] Hq1 [x2 Hb2] Hq2.
  destruct (trade_local_both_present account pair1 side1 base1 quote1 x1 Hb1
              Hq1) as (y1 & Hy1 & Hrun1).
  destruct (trade_local_both_present account pair2 side2 base2 quote2 x2 Hb2
              Hq2) as (y2 & Hy2 & Hrun2).
  fold b1 q1 in Hy1, Hrun1. fold b2 q2 in Hy2, Hrun2.
  set (a1 := <[q1 := add y1 quote1]> (<[b1 := add x1 base1]> account)) in *.
  set (a2 := <[q2 := add y2 quote2]> (<[b2 := add x2 base2]> account)) in *.
  assert (a1 !! b2 = Some x2) as Hb2'.
  { unfold a1. by rewrite !lookup_insert_ne. }
  assert (a2 !! b1 = Some x1) as Hb1'.
  { unfold a2. by rewrite !lookup_insert_ne. }
  destruct (trade_local_both_present a1 pair2 side2 base2 quote2 x2 Hb2')
    as (z2 & Hz2 & Hrun12).
  { fold q2. unfold a1. rewrite !lookup_insert_ne by done. done. }
  destruct (trade_local_both_present a2 pair1 side1 base1 quote1 x1 Hb1')
    as (z1 & Hz1 & Hrun21).
  { fold q1. unfold a2. rewrite !lookup_insert_ne by done. done. }
  fold b1 q1 in Hz1, Hrun21. fold b2 q2 in Hz2, Hrun12.
  assert (z2 = y2) as ->.
  { destruct (decide (b2 = q2)) as [Heq|Hne].
    - rewrite <- Heq in Hz2, Hy2. rewrite lookup_insert_eq in Hz2, Hy2.
      congruence.
    - rewrite lookup_insert_ne in Hz2, Hy2 by done.
      unfold a1 in Hz2. rewrite !lookup_insert_ne in Hz2 by done.
      congruence. }
  assert (z1 = y1) as ->.
  { destruct (decide (b1 = q1)) as [Heq|Hne].
    - rewrite <- Heq in Hz1, Hy1. rewrite lookup_insert_eq in Hz1, Hy1.
      congruence.
    - rewrite lookup_insert_ne in Hz1, Hy1 by done.
      unfold a2 in Hz1. rewrite !lookup_insert_ne in Hz1 by done.
      congruence. }
  eexists. unfold bind. rewrite Hrun1, Hrun2, Hrun12, Hrun21.
  split; [reflexivity|]. f_equal. unfold a1, a2.
  apply map_eq. intros c.
  repeat (rewrite lookup_insert; case_decide; subst; try done).
Qed.

(** X4.  [init_local_account] fixes the currencies for good: whatever the
    account was before, after it and any list of trades (run in order, up
    to the first that raises) the account holds exactly the currencies it
    was initialised with, and the trades have run on the new balances:
    the old account plays no part. *)
Theorem init_local_account_fixes_currencies account currencies
    (trades : list (string * string * num * num)) :
  let run := for_each trades (λ t, trade_local t.1.1.1 t.1.1.2 t.1.2 t.2) in
  (init_local_account currencies ;; run) account = run currencies ∧
  dom ((init_local_account currencies ;; run) account).2 = dom currencies.
Proof.
  intros run.
  assert ((init_local_account currencies ;; run) account = run currencies)
    as Heq by reflexivity.
  split; [exact Heq|]. rewrite Heq. clear Heq. subst run.
  revert currencies.
  induction trades as [|[[[pair side] bd] qd] trades IH]; intros currencies.
  - done.
  - cbn [for_each fst snd]. unfold bind at 1.
    pose proof (trade_local_dom currencies pair side bd qd) as Hdom.
    destruct (trade_local pair side bd qd currencies) as [[[]|e] account'].
    + cbn [snd] in Hdom. rewrite <- Hdom. apply IH.
    + exact Hdom.
Qed.

End ledger.

(** *** Concrete trades, on integer balances *)

(** C1, as the spec states it, fails when only the quote code is missing:
    the account holds BTC but no USD, the call raises for the quote leg, and
    the BTC balance has moved from 2 to 3. *)
Lemma trade_local_partial_mutation :
  (let '(r, account') :=
     trade_local (numbers := integers) (utils := dash_utils) "BTC-USD" "buy" 1 (-30000)
       {[ "BTC" := 2 ]} in
   r = Raise (KeyError "Quote currency specified not found in local account") ∧
   account' !! "BTC" = Some 3 ∧ account' !! "USD" = None) ∧
  ¬ fails_without_mutation (numbers := integers) (utils := dash_utils)
      {[ "BTC" := 2 ]} "BTC-USD" "buy" 1 (-30000).
Proof.
  split; [by vm_compute|].
  intros H. destruct H as (msg & account' & Hrun & Hbase & _).
  { right. reflexivity. }
  rewrite (trade_local_quote_missing (numbers := integers) (utils := dash_utils)
             {[ "BTC" := 2 ]} "BTC-USD" "buy" 1 (-30000) 2) in Hrun;
    [|reflexivity..].
  injection Hrun as _ <-.
  rewrite lookup_insert_eq in Hbase. vm_compute in Hbase. discriminate.
Qed.

Lemma trade_local_unknown_currency_witness :
  let account : gmap string Z := {[ "BTC" := 2 ]} in
  (account !! dash_base "BTC-USD" = None ∨
   account !! dash_quote "BTC-USD" = None) ∧
  ∃ msg account',
    trade_local (numbers := integers) (utils := dash_utils) "BTC-USD" "buy" 1 (-30000) account
    = (Raise (KeyError msg), account') ∧
    account' !! dash_quote "BTC-USD" = account !! dash_quote "BTC-USD" ∧
    (account !! dash_base "BTC-USD" = None →
       account' = account ∧
       msg = "Base currency specified not found in local account") ∧
    (∀ b, account !! dash_base "BTC-USD" = Some b →
       account' = <[dash_base "BTC-USD" := Z.add b 1]> account ∧
       msg = "Quote currency specified not found in local account").
Proof.
  split.
  - right. reflexivity.
  - apply (trade_local_unknown_currency (numbers := integers) (utils := dash_utils)
             {[ "BTC" := 2 ]} "BTC-USD" "buy" 1 (-30000)).
    right. reflexivity.
Defined.

(** C3, as the spec states it, fails on a symbol whose two codes coincide:
    both deltas land on the one balance, which ends at 103 and not at
    101. *)
Lemma trade_local_same_code_adds_twice :
  (let '(r, account') :=
     trade_local (numbers := integers) (utils := dash_utils) "USD-USD" "buy" 1 2
       {[ "USD" := 100 ]} in
   r = Ok tt ∧ account' !! "USD" = Some 103) ∧
  ¬ adds_both_deltas (numbers := integers) (utils := dash_utils)
      {[ "USD" := 100 ]} "USD-USD" "buy" 1 2.
Proof.
  split; [by vm_compute|].
  intros H. destruct (H 100 100) as (account' & Hrun & Hbase & _);
    [reflexivity..|].
  rewrite (trade_local_same_currency (numbers := integers) (utils := dash_utils)
             {[ "USD" := 100 ]} "USD-USD" "buy" 1 2 100) in Hrun;
    [|reflexivity..].
  injection Hrun as <-.
  rewrite lookup_insert_eq in Hbase. discriminate.
Qed.

Lemma trade_local_applies_both_legs_witness :
  let account : gmap string Z := {[ "BTC" := 2; "USD" := 50000 ]} in
  dash_base "BTC-USD" ≠ dash_quote "BTC-USD" ∧
  account !! dash_base "BTC-USD" = Some 2 ∧
  account !! dash_quote "BTC-USD" = Some 50000 ∧
  ∃ account',
    trade_local (numbers := integers) (utils := dash_utils) "BTC-USD" "buy" 1 (-30000) account
    = (Ok tt, account') ∧
    account' = <[dash_quote "BTC-USD" := 50000 + -30000]>
                 (<[dash_base "BTC-USD" := 2 + 1]> account) ∧
    account' !! dash_base "BTC-USD" = Some (2 + 1) ∧
    account' !! dash_quote "BTC-USD" = Some (50000 + -30000) ∧
    ∀ c, c ≠ dash_base "BTC-USD" → c ≠ dash_quote "BTC-USD" →
         account' !! c = account !! c.
Proof.
  split; [by vm_compute|]. split; [reflexivity|]. split; [reflexivity|].
  apply (trade_local_applies_both_legs (numbers := integers) (utils := dash_utils)
           {[ "BTC" := 2; "USD" := 50000 ]} "BTC-USD" "buy" 1 (-30000)
           2 50000).
  - by vm_compute.
  - reflexivity.
  - reflexivity.
Defined.

Lemma trade_local_disjoint_commute_witness :
  let account : gmap string Z :=
    {[ "BTC" := 2; "USD" := 50000; "ETH" := 10; "EUR" := 300 ]} in
  let b1 := dash_base "BTC-USD" in
  let q1 := dash_quote "BTC-USD" in
  let b2 := dash_base "ETH-EUR" in
  let q2 := dash_quote "ETH-EUR" in
  b1 ≠ b2 ∧ b1 ≠ q2 ∧ q1 ≠ b2 ∧ q1 ≠ q2 ∧
  is_Some (account !! b1) ∧ is_Some (account !! q1) ∧
  is_Some (account !! b2) ∧ is_Some (account !! q2) ∧
  ∃ account',
    (trade_local (numbers := integers) (utils := dash_utils)
       "BTC-USD" "buy" 1 (-30000) ;;
     trade_local (numbers := integers) (utils := dash_utils)
       "ETH-EUR" "sell" (-4) 120) account = (Ok tt, account') ∧
    (trade_local (numbers := integers) (utils := dash_utils)
       "ETH-EUR" "sell" (-4) 120 ;;
     trade_local (numbers := integers) (utils := dash_utils)
       "BTC-USD" "buy" 1 (-30000)) account = (Ok tt, account').
Proof.
  assert (dash_base "BTC-USD" ≠ dash_base "ETH-EUR") as H1 by (by vm_compute).
  assert (dash_base "BTC-USD" ≠ dash_quote "ETH-EUR") as H2 by (by vm_compute).
  assert (dash_quote "BTC-USD" ≠ dash_base "ETH-EUR") as H3 by (by vm_compute).
  assert (dash_quote "BTC-USD" ≠ dash_quote "ETH-EUR") as H4 by (by vm_compute).
  repeat (split; [first [assumption | by eexists]|]).
  apply (trade_local_disjoint_commute (numbers := integers)
           (utils := dash_utils)
           {[ "BTC" := 2; "USD" := 50000; "ETH" := 10; "EUR" := 300 ]}
           "BTC-USD" "buy" 1 (-30000) "ETH-EUR" "sell" (-4) 120);
    first [assumption | by eexists].
Defined.

End LedgerFacts.

(** ** The exchange and its model registry *)

Module ExchangeFacts.

Import Exchange PyFacts.

Section odict.
Context {V : Type}.
Implicit Types (d : list (string * V)).

Lemma dict_get_set_eq k v d : dict_get k (dict_set k v d) = Some v.
Proof.
  induction d as [|[k' v'] d IH]; simpl.
  - by rewrite decide_True.
  - destruct (decide (k' = k)) as [->|Hne]; simpl.
    + by rewrite decide_True.
    + by rewrite decide_False.
Qed.

Lemma dict_get_set_ne k k' v d :
  k ≠ k' → dict_get k' (dict_set k v d) = dict_get k' d.
Proof.
  intros Hne. induction d as [|[k0 v0] d IH]; simpl.
  - by rewrite decide_False.
  - destruct (decide (k0 = k)) as [->|Hne0]; simpl.
    + by rewrite !decide_False.
    + destruct (decide (k0 = k')); done.
Qed.

Lemma dict_keys_set k v d :
  dict_keys (dict_set k v d)
  = if decide (k ∈ dict_keys d) then dict_keys d else dict_keys d ++ [k].
Proof.
  unfold dict_keys. induction d as [|[k' v'] d IH].
  - destruct (decide (k ∈ ([] : list (string * V)).*1)) as [Hin|_]; [|done].
    by apply elem_of_nil in Hin.
  - cbn [dict_set]. destruct (decide (k' = k)) as [->|Hne].
    + destruct (decide (k ∈ ((k, v') :: d).*1)) as [_|Hin]; [done|].
      exfalso. apply Hin. rewrite fmap_cons. apply elem_of_cons; auto.
    + rewrite !fmap_cons, IH. cbn [fst].
      destruct (decide (k ∈ d.*1)) as [Hin|Hin];
        destruct (decide (k ∈ k' :: d.*1)) as [Hin'|Hin']; try done.
      * exfalso. apply Hin'. apply elem_of_cons; auto.
      * apply elem_of_cons in Hin' as [?|?]; congruence.
Qed.

Lemma dict_wf_set k v d : dict_wf d → dict_wf (dict_set k v d).
Proof.
  unfold dict_wf. rewrite dict_keys_set. intros Hwf.
  case_decide as Hin; [done|].
  apply NoDup_app. split; [done|]. split.
  - intros x Hx ->%list_elem_of_singleton. done.
  - apply NoDup_singleton.
Qed.

Lemma dict_get_elem_of k v d :
  dict_wf d → (k, v) ∈ d → dict_get k d = Some v.
Proof.
  unfold dict_wf, dict_keys. induction d as [|[k' v'] d IH]; simpl.
  - intros _ []%elem_of_nil.
  - intros [Hk' Hd]%NoDup_cons [[= -> ->]|Hin]%elem_of_cons.
    + by rewrite decide_True.
    + rewrite decide_False; [by apply IH|].
      intros ->. apply Hk'. apply list_elem_of_fmap.
      by exists (k, v).
Qed.

End odict.

Section exchange.

Context {Obj W : Type}.
Context {runtime : @ModelRuntime Obj W} {assets : @AssetState Obj W}.
Implicit Types (s : @state Obj W) (e : @entry Obj) (m a key value : Obj).
Implicit Types (evs : list (@event Obj)) (w : W).

(** *** Basic facts about the state *)

Lemma advance_advance s w1 evs1 w2 evs2 :
  advance (advance s w1 evs1) w2 evs2 = advance s w2 (evs1 ++ evs2).
Proof. unfold advance; simpl. by rewrite fmap_app, <- app_assoc. Qed.

Lemma advance_nil s : advance s (world s) [] = s.
Proof. destruct s. unfold advance; simpl. by rewrite app_nil_r. Qed.

Lemma call_eq {A} (ev : string + A → event) f s r w :
  f (world s) = (r, w) → call ev f s = (lift_outcome r, advance s w [ev r]).
Proof. intros Hf. unfold call. by rewrite Hf. Qed.

Lemma models_getitem_Some coin s e :
  dict_get coin (models s) = Some e → models_getitem coin s = (Ok e, s).
Proof. intros He. unfold models_getitem. by rewrite He. Qed.

Lemma started_sublist d w evs w' :
  bulk_start d w evs w' → started evs `sublist_of` registered d.
Proof.
  induction 1 as [|coin e rest w w1 evs w' _ _ IH
                  |coin e rest w w1 w2 evs w' _ _ _ IH]; simpl.
  - constructor.
  - by apply sublist_cons.
  - by apply sublist_skip.
Qed.

Lemma queried_registered d w evs w' :
  bulk_start d w evs w' → queried evs = registered d.
Proof.
  induction 1 as [|coin e rest w w1 evs w' _ _ IH
                  |coin e rest w w1 w2 evs w' _ _ _ IH]; simpl;
    by rewrite ?IH.
Qed.

Lemma elem_of_started m a r evs : Run m a r ∈ evs → m ∈ started evs.
Proof. intros Hin. apply list_elem_of_omap. by exists (Run m a r). Qed.

Lemma elem_of_queried m r evs : IsRunning m r ∈ evs → m ∈ queried evs.
Proof. intros Hin. apply list_elem_of_omap. by exists (IsRunning m r). Qed.

Lemma bulk_start_never_runs_running d w evs w' :
  bulk_start d w evs w' →
  NoDup (registered d) →
  ∀ m, IsRunning m (inr true) ∈ evs → ∀ a r, Run m a r ∉ evs.
Proof.
  induction 1 as [|coin e rest w w1 evs w' _ Hrest IH
                  |coin e rest w w1 w2 evs w' _ _ Hrest IH];
    simpl; intros Hnd m Hq a r Hr;
    [by apply elem_of_nil in Hq
    |apply NoDup_cons in Hnd as [Hfresh Hnd]..].
  - apply elem_of_cons in Hr as [?|Hr]; [done|].
    apply elem_of_cons in Hr as [?|Hr]; [done|].
    apply elem_of_cons in Hq as [[= ->]|Hq].
    + apply Hfresh. apply elem_of_started in Hr.
      exact (elem_of_sublist _ _ _ Hr (started_sublist _ _ _ _ Hrest)).
    + apply elem_of_cons in Hq as [?|Hq]; [done|]. by eapply IH.
  - apply elem_of_cons in Hq as [?|Hq]; [done|].
    apply elem_of_cons in Hq as [?|Hq]; [done|].
    apply elem_of_cons in Hq as [?|Hq]; [done|].
    apply elem_of_cons in Hr as [?|Hr]; [done|].
    apply elem_of_cons in Hr as [[= -> _ _]|Hr].
    + apply Hfresh. apply elem_of_queried in Hq.
      by rewrite (queried_registered _ _ _ _ Hrest) in Hq.
    + apply elem_of_cons in Hr as [?|Hr]; [done|]. by eapply IH.
Qed.

Lemma start_models_body_running coin s e w1 :
  dict_get coin (models s) = Some e →
  is_running (model e) (world s) = (inr true, w1) →
  start_models_body coin s
  = (Ok tt, advance s w1 [IsRunning (model e) (inr true);
                          Print ("Ignoring the model on " +:+ coin)]).
Proof.
  intros He Hb. unfold start_models_body, bind.
  rewrite (models_getitem_Some _ _ _ He), (call_eq _ _ _ _ _ Hb).
  cbn [lift_outcome negb]. unfold print. cbn [world advance].
  by rewrite advance_advance.
Qed.

Lemma start_models_body_idle coin s e w1 r w2 :
  dict_get coin (models s) = Some e →
  is_running (model e) (world s) = (inr false, w1) →
  run (model e) (args e) w1 = (r, w2) →
  start_models_body coin s
  = match r with
    | inr _ => (Ok tt, advance s w2 [IsRunning (model e) (inr false);
                                     Run (model e) (args e) r;
                                     Sleep (1 # 10)])
    | inl tag => (Raise (Foreign tag),
                  advance s w2 [IsRunning (model e) (inr false);
                                Run (model e) (args e) r])
    end.
Proof.
  intros He Hb Hrun. unfold start_models_body, bind.
  rewrite (models_getitem_Some _ _ _ He), (call_eq _ _ _ _ _ Hb).
  cbn [lift_outcome negb].
  rewrite (models_getitem_Some coin (advance s w1 _) e He).
  rewrite (models_getitem_Some coin (advance s w1 _) e He).
  rewrite (call_eq _ _ (advance s w1 _) _ _ Hrun).
  rewrite advance_advance.
  destruct r as [tag|[]]; cbn [lift_outcome]; [done|].
  unfold time_sleep. cbn [world advance]. by rewrite advance_advance.
Qed.

(** The loop of [start_models], over the keys of a tail of the registry. *)
Lemma start_models_loop rest : ∀ s,
  (∀ coin e, (coin, e) ∈ rest → dict_get coin (models s) = Some e) →
  (∀ coin e w, (coin, e) ∈ rest →
     ∃ b w', is_running (model e) w = (inr b, w')) →
  (∀ coin e w, (coin, e) ∈ rest →
     ∃ w', run (model e) (args e) w = (inr tt, w')) →
  ∃ evs w',
    for_each (dict_keys rest) start_models_body s = (Ok tt, advance s w' evs) ∧
    bulk_start rest (world s) evs w'.
Proof.
  induction rest as [|[coin e] rest IH]; intros s Hget Hq Hr.
  - exists [], (world s). split; [|constructor].
    simpl. unfold ret. by rewrite advance_nil.
  - assert (dict_get coin (models s) = Some e) as He
      by (apply Hget; left).
    destruct (Hq coin e (world s)) as (b & w1 & Hb); [left|].
    assert (∀ s' : state, models s' = models s →
              ∃ evs w', for_each (dict_keys rest) start_models_body s'
                        = (Ok tt, advance s' w' evs) ∧
                        bulk_start rest (world s') evs w') as IH'.
    { intros s' Hs'. apply IH.
      - intros c e' Hin. rewrite Hs'. apply Hget. by right.
      - intros c e' w Hin. apply (Hq c). by right.
      - intros c e' w Hin. apply (Hr c). by right. }
    change (dict_keys ((coin, e) :: rest)) with (coin :: dict_keys rest).
    cbn [for_each]. unfold bind at 1.
    destruct b.
    + rewrite (start_models_body_running _ _ _ _ He Hb).
      destruct (IH' (advance s w1 [IsRunning (model e) (inr true);
                      Print ("Ignoring the model on " +:+ coin)]))
        as (evs & w' & -> & Hspec); [done|].
      eexists _, w'. split; [by rewrite advance_advance|].
      by eapply bulk_start_skip.
    + destruct (Hr coin e w1) as (w2 & Hrun); [left|].
      rewrite (start_models_body_idle _ _ _ _ _ _ He Hb Hrun).
      destruct (IH' (advance s w2 [IsRunning (model e) (inr false);
                      Run (model e) (args e) (inr tt); Sleep (1 # 10)]))
        as (evs & w' & -> & Hspec); [done|].
      eexists _, w'. split; [by rewrite advance_advance|].
      by eapply bulk_start_run.
Qed.

Lemma get_full_state_Interface coin_id s :
  Interface (get_full_state coin_id s).2 = Interface s.
Proof.
  unfold get_full_state, get_model_state, __get_model, bind, models_getitem,
    call, ret.
  destruct (get_asset_state coin_id (world s)) as [[tag|a] w1];
    cbn [lift_outcome]; [done|].
  cbn [models advance].
  destruct (dict_get coin_id (models s)) as [e|]; [|done].
  change (world (advance s w1 _)) with w1.
  destruct (get_state (model e) w1) as [[tag|ms] w2]; done.
Qed.

Lemma append_model_unfold s model0 coin_id args0 :
  append_model model0 coin_id args0 s
  = (initial_state <- get_full_state coin_id ;;
     call (Setup model0 (__type s) coin_id (preferences s) initial_state
             (Interface s))
          (setup model0 (__type s) coin_id (preferences s) initial_state
             (Interface s)))
      (set_models (dict_set coin_id {| model := model0; args := args0 |}) s).
Proof.
  unfold append_model, bind, modify, gets. cbn [set_models __type preferences].
  pose proof (get_full_state_Interface coin_id
    (set_models (dict_set coin_id {| model := model0; args := args0 |}) s))
    as Hi.
  unfold set_models in *.
  destruct (get_full_state coin_id _) as [[fs|err] s'] eqn:Hfs; [|done].
  cbn [snd Interface] in Hi. by rewrite Hi.
Qed.

Lemma get_full_state_attached s model0 coin_id args0 a w1 r w2 :
  let s1 := set_models
              (dict_set coin_id {| model := model0; args := args0 |}) s in
  get_asset_state coin_id (world s) = (inr a, w1) →
  get_state model0 w1 = (r, w2) →
  get_full_state coin_id s1
  = (match r with
     | inl tag => Raise (Foreign tag)
     | inr ms => Ok {| fs_account := a; fs_model := ms |}
     end,
     advance s1 w2 [GetAssetState coin_id (inr a); GetState model0 r]).
Proof.
  intros s1 Ha Hms.
  unfold get_full_state, get_model_state, __get_model, bind, models_getitem,
    call, ret.
  change (world s1) with (world s). rewrite Ha. cbn [lift_outcome].
  change (models (advance s1 w1 _)) with (models s1).
  unfold s1 at 1. cbn [models set_models]. rewrite dict_get_set_eq.
  cbn [model world advance]. rewrite Hms.
  rewrite advance_advance. by destruct r.
Qed.

(** However [append_model] ends, the entry is in the registry. *)
Lemma append_model_models s model0 coin_id args0 :
  models (append_model model0 coin_id args0 s).2
  = dict_set coin_id {| model := model0; args := args0 |} (models s).
Proof.
  rewrite append_model_unfold. unfold bind.
  destruct (get_asset_state coin_id (world s)) as [ra w1] eqn:Ha.
  destruct ra as [tag|a].
  - unfold get_full_state, bind, call. cbn [world set_models].
    by rewrite Ha.
  - destruct (get_state model0 w1) as [r w2] eqn:Hms.
    rewrite (get_full_state_attached s model0 coin_id args0 a w1 r w2 Ha Hms).
    destruct r as [tag|ms]; [done|].
    unfold call. by destruct (setup _ _ _ _ _ _ _).
Qed.

(** The registry stays a dict: from the empty registry of [__init__] on,
    attaching keeps every key once, in the order of the first attachments. *)
Lemma append_model_wf s model0 coin_id args0 :
  dict_wf (models s) →
  dict_wf (models (append_model model0 coin_id args0 s).2).
Proof. intros Hwf. rewrite append_model_models. by apply dict_wf_set. Qed.

(** *** Attaching, starting and querying *)

(** C2 (amended).  [append_model] first stores the entry under the symbol,
    replacing any earlier one, and the entry stays stored however the call
    ends.  It then takes the snapshot (the asset state, then the state of
    the model) and calls [setup] with it: every one of these calls sees the
    registry with the new entry in it, and the account part of the snapshot
    is the asset state as it was when the model was attached. *)
Theorem append_model_stores_then_sets_up s model0 coin_id args0 :
  let e := {| model := model0; args := args0 |} in
  let s1 := set_models (dict_set coin_id e) s in
  models (append_model model0 coin_id args0 s).2 = dict_set coin_id e (models s) ∧
  dict_get coin_id (dict_set coin_id e (models s)) = Some e ∧
  ∀ a w1 ms w2 r w3,
    get_asset_state coin_id (world s) = (inr a, w1) →
    get_state model0 w1 = (inr ms, w2) →
    setup model0 (__type s) coin_id (preferences s)
      {| fs_account := a; fs_model := ms |} (Interface s) w2 = (r, w3) →
    append_model model0 coin_id args0 s
    = (lift_outcome r,
       advance s1 w3
         [GetAssetState coin_id (inr a); GetState model0 (inr ms);
          Setup model0 (__type s) coin_id (preferences s)
            {| fs_account := a; fs_model := ms |} (Interface s) r]).
Proof.
  intros e s1. subst e s1. split; [|split].
  - apply append_model_models.
  - apply dict_get_set_eq.
  - intros a w1 ms w2 r w3 Ha Hms Hsetup.
    rewrite append_model_unfold. unfold bind.
    rewrite (get_full_state_attached s model0 coin_id args0 a w1 _ w2 Ha Hms).
    rewrite (call_eq _ _ (advance _ w2 _) r w3) by exact Hsetup.
    by rewrite advance_advance.
Qed.

(** C10.  While a model is attached, its [get_state] is called before its
    [setup]: once the asset state is there, [get_state] is asked of the new
    model (whatever was attached under the symbol before); if it raises,
    [setup] is never called; if it answers, the answer is the model part of
    the snapshot that [setup] then receives. *)
Theorem append_model_reads_state_before_setup s model0 coin_id args0 a w1 :
  let s1 := set_models
              (dict_set coin_id {| model := model0; args := args0 |}) s in
  get_asset_state coin_id (world s) = (inr a, w1) →
  ∃ r w2, get_state model0 w1 = (r, w2) ∧
    match r with
    | inl tag =>
        append_model model0 coin_id args0 s
        = (Raise (Foreign tag),
           advance s1 w2
             [GetAssetState coin_id (inr a); GetState model0 (inl tag)])
    | inr ms =>
        ∃ r3 w3,
          setup model0 (__type s) coin_id (preferences s)
            {| fs_account := a; fs_model := ms |} (Interface s) w2 = (r3, w3) ∧
          append_model model0 coin_id args0 s
          = (lift_outcome r3,
             advance s1 w3
               [GetAssetState coin_id (inr a); GetState model0 (inr ms);
                Setup model0 (__type s) coin_id (preferences s)
                  {| fs_account := a; fs_model := ms |} (Interface s) r3])
    end.
Proof.
  intros s1 Ha. subst s1.
  destruct (get_state model0 w1) as [r w2] eqn:Hms. exists r, w2.
  split; [done|].
  rewrite append_model_unfold. unfold bind.
  rewrite (get_full_state_attached s model0 coin_id args0 a w1 r w2 Ha Hms).
  destruct r as [tag|ms]; [done|].
  destruct (setup model0 (__type s) coin_id (preferences s)
              {| fs_account := a; fs_model := ms |} (Interface s) w2)
    as [r3 w3] eqn:Hsetup.
  exists r3, w3. split; [done|].
  rewrite (call_eq _ _ (advance _ w2 _) r3 w3) by exact Hsetup.
  by rewrite advance_advance.
Qed.

(** C6.  [start_models] without a symbol, on a registry whose models answer
    [is_running] and [run] without raising: it returns normally, leaves the
    registry as it was, and what it did is what [bulk_start] prescribes for
    the entries in insertion order.  Each entry's model is asked once
    whether it runs; the models run are a sublist of the registered ones;
    and when no model is registered twice, no model is run twice and a model
    that answered that it runs is not run. *)
Theorem start_models_all s :
  dict_wf (models s) →
  (∀ coin e w, (coin, e) ∈ models s →
     ∃ b w', is_running (model e) w = (inr b, w')) →
  (∀ coin e w, (coin, e) ∈ models s →
     ∃ w', run (model e) (args e) w = (inr tt, w')) →
  ∃ evs w',
    start_models None s = (Ok tt, advance s w' evs) ∧
    models (advance s w' evs) = models s ∧
    bulk_start (models s) (world s) evs w' ∧
    queried evs = registered (models s) ∧
    started evs `sublist_of` registered (models s) ∧
    (NoDup (registered (models s)) →
       NoDup (started evs) ∧
       ∀ m, IsRunning m (inr true) ∈ evs → ∀ a r, Run m a r ∉ evs).
Proof.
  intros Hwf Hq Hr.
  destruct (start_models_loop (models s) s) as (evs & w' & Hloop & Hspec).
  { intros coin e Hin. by apply dict_get_elem_of. }
  { done. }
  { done. }
  exists evs, w'. split; [|split; [done|split; [done|split; [|split]]]].
  - unfold start_models, bind, gets. exact Hloop.
  - by eapply queried_registered.
  - by eapply started_sublist.
  - intros Hnd. split.
    + eapply sublist_NoDup; [exact Hnd|]. by eapply started_sublist.
    + by eapply bulk_start_never_runs_running.
Qed.

(** C7.  [start_models] with a symbol that has an entry asks the entry's
    model whether it runs, first.  If it does, nothing else happens and the
    call returns normally; if it does not, [run] is called once with the
    entry's arguments; the registry is as before either way. *)
Theorem start_models_one s coin_id e :
  dict_get coin_id (models s) = Some e →
  ∃ r w1, is_running (model e) (world s) = (r, w1) ∧
    match r with
    | inr true =>
        start_models (Some coin_id) s
        = (Ok tt, advance s w1 [IsRunning (model e) r])
    | inr false =>
        ∃ r2 w2, run (model e) (args e) w1 = (r2, w2) ∧
          start_models (Some coin_id) s
          = (lift_outcome r2,
             advance s w2 [IsRunning (model e) r; Run (model e) (args e) r2])
    | inl tag =>
        start_models (Some coin_id) s
        = (Raise (Foreign tag), advance s w1 [IsRunning (model e) r])
    end.
Proof.
  intros He.
  destruct (is_running (model e) (world s)) as [r w1] eqn:Hb.
  exists r, w1. split; [done|].
  unfold start_models, bind.
  rewrite (models_getitem_Some _ _ _ He), (call_eq _ _ _ _ _ Hb).
  destruct r as [tag|[|]]; cbn [lift_outcome negb]; [done|done|].
  destruct (run (model e) (args e) w1) as [r2 w2] eqn:Hrun.
  exists r2, w2. split; [done|].
  rewrite (models_getitem_Some coin_id (advance s w1 _) e He).
  rewrite (models_getitem_Some coin_id (advance s w1 _) e He).
  rewrite (call_eq _ _ (advance s w1 _) _ _ Hrun).
  by rewrite advance_advance.
Qed.

(** C8.  [get_model_state] and [write_value] raise [KeyError] on the symbol
    exactly when the registry has no entry for it, and then nothing else
    happens.  With an entry, [get_model_state] ends as the [get_state] of
    the entry's model does, called in the world of the moment, and
    [write_value] ends as its [update_state] does, called with the key and
    the value.  Neither touches the registry. *)
Theorem model_state_and_write_value s currency key value :
  ((get_model_state currency s).1 = Raise (KeyError currency)
   ↔ dict_get currency (models s) = None) ∧
  ((write_value currency key value s).1 = Raise (KeyError currency)
   ↔ dict_get currency (models s) = None) ∧
  (dict_get currency (models s) = None →
     get_model_state currency s = (Raise (KeyError currency), s) ∧
     write_value currency key value s = (Raise (KeyError currency), s)) ∧
  (∀ e, dict_get currency (models s) = Some e →
     (∀ r w, get_state (model e) (world s) = (r, w) →
        get_model_state currency s
        = (lift_outcome r, advance s w [GetState (model e) r])) ∧
     (∀ r w, update_state (model e) key value (world s) = (r, w) →
        write_value currency key value s
        = (lift_outcome r,
           advance s w [UpdateState (model e) key value r]))) ∧
  models (get_model_state currency s).2 = models s ∧
  models (write_value currency key value s).2 = models s.
Proof.
  unfold get_model_state, write_value, __get_model, bind, models_getitem,
    ret, call.
  destruct (dict_get currency (models s)) as [e|] eqn:He.
  - destruct (get_state (model e) (world s)) as [r w] eqn:Hr.
    destruct (update_state (model e) key value (world s)) as [r' w'] eqn:Hr'.
    cbn [fst snd]. split; [|split; [|split; [|split; [|split]]]].
    + split; [by destruct r|done].
    + split; [by destruct r'|done].
    + done.
    + intros e' [= <-]. split; intros r0 w0 Heq.
      * rewrite Hr in Heq. by injection Heq as <- <-.
      * rewrite Hr' in Heq. by injection Heq as <- <-.
    + done.
    + done.
  - cbn [fst snd]. split; [|split; [|split; [|split; [|split]]]]; done.
Qed.

(** *** More about the registry *)

Lemma start_models_body_frame coin s :
  ∃ w evs, (start_models_body coin s).2 = advance s w evs.
Proof.
  destruct (dict_get coin (models s)) as [e|] eqn:He.
  - destruct (is_running (model e) (world s)) as [[tag|[|]] w1] eqn:Hb.
    + exists w1, [IsRunning (model e) (inl tag)].
      unfold start_models_body, bind.
      by rewrite (models_getitem_Some _ _ _ He), (call_eq _ _ _ _ _ Hb).
    + eexists _, _. by rewrite (start_models_body_running _ _ _ _ He Hb).
    + destruct (run (model e) (args e) w1) as [r w2] eqn:Hrun.
      rewrite (start_models_body_idle _ _ _ _ _ _ He Hb Hrun).
      destruct r; eexists _, _; done.
  - exists (world s), []. unfold start_models_body, bind, models_getitem.
    rewrite He. cbn [snd]. by rewrite advance_nil.
Qed.

Lemma for_each_body_frame keys : ∀ s,
  ∃ w evs, (for_each keys start_models_body s).2 = advance s w evs.
Proof.
  induction keys as [|coin keys IH]; intros s.
  - exists (world s), []. cbn. by rewrite advance_nil.
  - cbn [for_each]. unfold bind.
    destruct (start_models_body_frame coin s) as (w1 & evs1 & Hbody).
    destruct (start_models_body coin s) as [[[]|err] s1]; cbn [snd] in Hbody.
    + subst s1. destruct (IH (advance s w1 evs1)) as (w2 & evs2 & ->).
      eexists _, _. by rewrite advance_advance.
    + subst s1. eauto.
Qed.

(** X5.  Starting and querying never write the registry, the type, the
    name, the preferences or the interface, and never drop a line of the
    trace, however they end: the state they leave is the old one with the
    world moved and events added.  Only [append_model] writes the
    registry. *)
Theorem queries_keep_registry s coin_id currency key value :
  (∃ w evs, (start_models coin_id s).2 = advance s w evs) ∧
  (∃ w evs, (get_model_state currency s).2 = advance s w evs) ∧
  (∃ w evs, (get_full_state currency s).2 = advance s w evs) ∧
  (∃ w evs, (write_value currency key value s).2 = advance s w evs).
Proof.
  split; [|split; [|split]].
  - destruct coin_id as [coin|].
    + unfold start_models, bind.
      destruct (dict_get coin (models s)) as [e|] eqn:He.
      * rewrite (models_getitem_Some _ _ _ He).
        destruct (is_running (model e) (world s)) as [[tag|[|]] w1] eqn:Hb;
          rewrite (call_eq _ _ _ _ _ Hb); cbn [lift_outcome negb];
          [by eexists _, _..|].
        rewrite !(models_getitem_Some coin (advance s w1 _) e He).
        destruct (run (model e) (args e) w1) as [r w2] eqn:Hrun.
        rewrite (call_eq _ _ (advance s w1 _) _ _ Hrun), advance_advance.
        by eexists _, _.
      * exists (world s), []. unfold models_getitem. rewrite He. cbn [snd].
        by rewrite advance_nil.
    + unfold start_models, bind, gets. apply for_each_body_frame.
  - unfold get_model_state, __get_model, bind, models_getitem, ret.
    destruct (dict_get currency (models s)) as [e|].
    + unfold call. destruct (get_state (model e) (world s)). by eexists _, _.
    + exists (world s), []. cbn [snd]. by rewrite advance_nil.
  - unfold get_full_state, get_model_state, __get_model, bind, models_getitem,
      ret, call.
    destruct (get_asset_state currency (world s)) as [[tag|a] w1];
      cbn [lift_outcome]; [by eexists _, _|].
    cbn [models advance].
    destruct (dict_get currency (models s)) as [e|]; [|by eexists _, _].
    change (world (advance s w1 ?evs)) with w1.
    destruct (get_state (model e) w1) as [[tag|ms] w2]; cbn [lift_outcome snd];
      rewrite advance_advance; by eexists _, _.
  - unfold write_value, __get_model, bind, models_getitem, ret.
    destruct (dict_get currency (models s)) as [e|].
    + unfold call. destruct (update_state (model e) key value (world s)).
      by eexists _, _.
    + exists (world s), []. cbn [snd]. by rewrite advance_nil.
Qed.

(** X6.  A symbol without an entry.  [start_models] with it raises
    [KeyError] at once: no model is asked anything and the state is as
    before.  [get_full_state] asks for the asset state first all the same,
    and raises [KeyError] only when that has returned. *)
Theorem unknown_symbol s coin :
  dict_get coin (models s) = None →
  start_models (Some coin) s = (Raise (KeyError coin), s) ∧
  ∃ r w, get_asset_state coin (world s) = (r, w) ∧
    get_full_state coin s
    = (match r with
       | inl tag => Raise (Foreign tag)
       | inr _ => Raise (KeyError coin)
       end,
       advance s w [GetAssetState coin r]).
Proof.
  intros He. split.
  - unfold start_models, bind, models_getitem. by rewrite He.
  - destruct (get_asset_state coin (world s)) as [r w] eqn:Ha.
    exists r, w. split; [done|].
    unfold get_full_state, get_model_state, __get_model, bind, models_getitem.
    rewrite (call_eq _ _ _ _ _ Ha).
    destruct r as [tag|a]; cbn [lift_outcome]; [done|].
    cbn [models advance]. by rewrite He.
Qed.

(** The loop of [start_models] follows [bulk_start] as far as that goes. *)
Lemma loop_follows_bulk_start pre w evs w1 :
  bulk_start pre w evs w1 →
  ∀ s, world s = w →
    (∀ coin e, (coin, e) ∈ pre → dict_get coin (models s) = Some e) →
    for_each (dict_keys pre) start_models_body s = (Ok tt, advance s w1 evs).
Proof.
  induction 1 as [w|coin e rest w w1 evs w' Hb _ IH
                  |coin e rest w w1 w2 evs w' Hb Hrun _ IH];
    intros s Hw Hget.
  - cbn. unfold ret. by rewrite <- Hw, advance_nil.
  - change (dict_keys ((coin, e) :: rest)) with (coin :: dict_keys rest).
    cbn [for_each]. unfold bind at 1. rewrite <- Hw in Hb.
    rewrite (start_models_body_running coin s e w1); [|apply Hget; left|done].
    rewrite IH; [by rewrite advance_advance|done|].
    intros c e' Hin. apply Hget. by right.
  - change (dict_keys ((coin, e) :: rest)) with (coin :: dict_keys rest).
    cbn [for_each]. unfold bind at 1. rewrite <- Hw in Hb.
    rewrite (start_models_body_idle coin s e w1 (inr tt) w2);
      [|apply Hget; left|done|done].
    rewrite IH; [by rewrite advance_advance|done|].
    intros c e' Hin. apply Hget. by right.
Qed.

(** X7.  The bulk start stops at the first model that raises.  When the
    entries before it went as [bulk_start] says and the model raises in
    [is_running], or answers that it does not run and raises in [run], the
    exception comes out of [start_models] and the models after it are
    neither asked nor run. *)
Theorem start_models_stops_at_first_raise s pre coin e post evs w1 :
  dict_wf (models s) →
  models s = pre ++ (coin, e) :: post →
  bulk_start pre (world s) evs w1 →
  (∀ tag w2, is_running (model e) w1 = (inl tag, w2) →
     start_models None s
     = (Raise (Foreign tag),
        advance s w2 (evs ++ [IsRunning (model e) (inl tag)]))) ∧
  (∀ w2 tag w3,
     is_running (model e) w1 = (inr false, w2) →
     run (model e) (args e) w2 = (inl tag, w3) →
     start_models None s
     = (Raise (Foreign tag),
        advance s w3 (evs ++ [IsRunning (model e) (inr false);
                              Run (model e) (args e) (inl tag)]))).
Proof.
  intros Hwf Hmodels Hpre.
  assert (∀ c e', (c, e') ∈ models s → dict_get c (models s) = Some e')
    as Hget by (intros c e' Hin; by apply dict_get_elem_of).
  assert (for_each (dict_keys pre) start_models_body s
          = (Ok tt, advance s w1 evs)) as Hloop.
  { apply (loop_follows_bulk_start pre (world s) evs w1 Hpre); [done|].
    intros c e' Hin. apply Hget. rewrite Hmodels.
    apply elem_of_app. by left. }
  assert (dict_get coin (models (advance s w1 evs)) = Some e) as He.
  { apply Hget. rewrite Hmodels. apply elem_of_app. right. left. }
  assert (start_models None s
          = (start_models_body coin ;;
             for_each (dict_keys post) start_models_body)
              (advance s w1 evs)) as Hstart.
  { unfold start_models. unfold bind at 1. unfold gets.
    rewrite Hmodels. unfold dict_keys. rewrite fmap_app, fmap_cons.
    rewrite for_each_app. unfold bind at 1.
    unfold dict_keys in Hloop. rewrite Hloop. done. }
  split.
  - intros tag w2 Hb. rewrite Hstart. unfold bind at 1.
    unfold start_models_body, bind.
    rewrite (models_getitem_Some _ _ _ He).
    rewrite (call_eq _ _ (advance s w1 evs) _ _ Hb).
    cbn [lift_outcome]. by rewrite advance_advance.
  - intros w2 tag w3 Hb Hrun. rewrite Hstart. unfold bind at 1.
    rewrite (start_models_body_idle coin (advance s w1 evs) e w2 (inl tag) w3
               He Hb Hrun).
    by rewrite advance_advance.
Qed.

(** X8.  After [append_model], however it ended: the symbol has the new
    entry, every other symbol has the entry it had, the symbols are in the
    order they were in (a new one comes last, one attached again keeps its
    place), and [get_model_state] for the symbol ends as the [get_state] of
    the new model does. *)
Theorem append_model_then_lookup s model0 coin_id args0 :
  let s' := (append_model model0 coin_id args0 s).2 in
  dict_get coin_id (models s') = Some {| model := model0; args := args0 |} ∧
  (∀ other, other ≠ coin_id →
     dict_get other (models s') = dict_get other (models s)) ∧
  dict_keys (models s')
  = (if decide (coin_id ∈ dict_keys (models s)) then dict_keys (models s)
     else dict_keys (models s) ++ [coin_id]) ∧
  (∀ r w, get_state model0 (world s') = (r, w) →
     get_model_state coin_id s'
     = (lift_outcome r, advance s' w [GetState model0 r])).
Proof.
  intros s'.
  assert (dict_get coin_id (models s')
          = Some {| model := model0; args := args0 |}) as Hget.
  { unfold s'. rewrite append_model_models. apply dict_get_set_eq. }
  split; [exact Hget|]. split; [|split].
  - intros other Hne. unfold s'. rewrite append_model_models.
    by apply dict_get_set_ne.
  - unfold s'. rewrite append_model_models. apply dict_keys_set.
  - intros r w Hr. unfold get_model_state, __get_model, bind, ret.
    rewrite (models_getitem_Some _ _ _ Hget). cbn [model].
    by rewrite (call_eq _ _ _ _ _ Hr).
Qed.

Lemma start_one_running coin s e w1 :
  dict_get coin (models s) = Some e →
  is_running (model e) (world s) = (inr true, w1) →
  start_models (Some coin) s
  = (Ok tt, advance s w1 [IsRunning (model e) (inr true)]).
Proof.
  intros He Hb. unfold start_models, bind.
  by rewrite (models_getitem_Some _ _ _ He), (call_eq _ _ _ _ _ Hb).
Qed.

Lemma start_one_idle coin s e w1 w2 :
  dict_get coin (models s) = Some e →
  is_running (model e) (world s) = (inr false, w1) →
  run (model e) (args e) w1 = (inr tt, w2) →
  start_models (Some coin) s
  = (Ok tt, advance s w2 [IsRunning (model e) (inr false);
                          Run (model e) (args e) (inr tt)]).
Proof.
  intros He Hb Hrun. unfold start_models, bind.
  rewrite (models_getitem_Some _ _ _ He), (call_eq _ _ _ _ _ Hb).
  cbn [lift_outcome negb].
  rewrite !(models_getitem_Some coin (advance s w1 _) e He).
  rewrite (call_eq _ _ (advance s w1 _) _ _ Hrun).
  by rewrite advance_advance.
Qed.

Lemma singles_follow_bulk_start pre w evs w1 :
  bulk_start pre w evs w1 →
  ∀ s, world s = w →
    (∀ coin e, (coin, e) ∈ pre → dict_get coin (models s) = Some e) →
    for_each (dict_keys pre) (λ coin, start_models (Some coin)) s
    = (Ok tt, advance s w1 (List.filter is_model_call evs)).
Proof.
  induction 1 as [w|coin e rest w w1 evs w' Hb _ IH
                  |coin e rest w w1 w2 evs w' Hb Hrun _ IH];
    intros s Hw Hget.
  - cbn. unfold ret. by rewrite <- Hw, advance_nil.
  - change (dict_keys ((coin, e) :: rest)) with (coin :: dict_keys rest).
    cbn [for_each List.filter is_model_call]. unfold bind at 1.
    rewrite <- Hw in Hb.
    rewrite (start_one_running coin s e w1); [|apply Hget; left|done].
    rewrite IH; [by rewrite advance_advance|done|].
    intros c e' Hin. apply Hget. by right.
  - change (dict_keys ((coin, e) :: rest)) with (coin :: dict_keys rest).
    cbn [for_each List.filter is_model_call]. unfold bind at 1.
    rewrite <- Hw in Hb.
    rewrite (start_one_idle coin s e w1 w2); [|apply Hget; left|done|done].
    rewrite IH; [by rewrite advance_advance|done|].
    intros c e' Hin. apply Hget. by right.
Qed.

(** X9.  The bulk start does what starting the symbols one by one, in the
    order of the registry, does: on a registry whose models do not raise,
    both return, leave the same world, and make the same calls of the
    models in the same order; the bulk start only adds its pauses and its
    printed lines. *)
Theorem start_models_all_as_singles s :
  dict_wf (models s) →
  (∀ coin e w, (coin, e) ∈ models s →
     ∃ b w', is_running (model e) w = (inr b, w')) →
  (∀ coin e w, (coin, e) ∈ models s →
     ∃ w', run (model e) (args e) w = (inr tt, w')) →
  ∃ evs w',
    start_models None s = (Ok tt, advance s w' evs) ∧
    for_each (dict_keys (models s)) (λ coin, start_models (Some coin)) s
    = (Ok tt, advance s w' (List.filter is_model_call evs)).
Proof.
  intros Hwf Hq Hr.
  assert (∀ coin e, (coin, e) ∈ models s → dict_get coin (models s) = Some e)
    as Hget by (intros coin e Hin; by apply dict_get_elem_of).
  destruct (start_models_loop (models s) s Hget Hq Hr)
    as (evs & w' & Hloop & Hspec).
  exists evs, w'. split.
  - unfold start_models, bind, gets. exact Hloop.
  - by apply (singles_follow_bulk_start (models s) (world s) evs w' Hspec).
Qed.

End exchange.

(** *** [construct_interface] *)
Section interfaces.

Context {Obj W : Type} {classes : @InterfaceClasses Obj W}.
Implicit Types (s : @state Obj W).

(** X10.  [construct_interface] writes nothing but the interface and moves
    nothing but the world.  For a type other than coinbase_pro and binance
    it does nothing at all, and raises nothing.  For one of the two, the
    interface becomes what the class returned; when the class raises, the
    interface stays as it was. *)
Theorem construct_interface_cases s calls :
  let s' := (construct_interface calls s).2 in
  (__type s' = __type s ∧ __name s' = __name s ∧
   preferences s' = preferences s ∧ models s' = models s ∧
   trace s' = trace s) ∧
  (__type s ≠ "coinbase_pro" → __type s ≠ "binance" →
   construct_interface calls s = (Ok tt, s)) ∧
  (∀ class,
     (__type s = "coinbase_pro" ∧ class = CoinbaseProInterface) ∨
     (__type s = "binance" ∧ class = BinanceInterface) →
     ∃ r w, class (__type s) calls (world s) = (r, w) ∧
       construct_interface calls s
       = match r with
         | inl tag => (Raise (Foreign tag), set_world w s)
         | inr i => (Ok tt, set_Interface i (set_world w s))
         end).
Proof.
  intros s'. subst s'. unfold construct_interface, bind, gets.
  split; [|split].
  - repeat case_decide; unfold instantiate, modify, ret;
      repeat match goal with
             | |- context [CoinbaseProInterface ?t ?c ?w] =>
                 destruct (CoinbaseProInterface t c w) as [[?|?] ?]
             | |- context [BinanceInterface ?t ?c ?w] =>
                 destruct (BinanceInterface t c w) as [[?|?] ?]
             end; done.
  - intros H1 H2. by rewrite !decide_False.
  - intros class [[Hty ->]|[Hty ->]].
    + rewrite decide_True by done. unfold instantiate, modify.
      destruct (CoinbaseProInterface (__type s) calls (world s))
        as [[tag|i] w]; by eexists _, _.
    + rewrite decide_False by (rewrite Hty; done).
      rewrite decide_True by done. unfold instantiate, modify.
      destruct (BinanceInterface (__type s) calls (world s))
        as [[tag|i] w]; by eexists _, _.
Qed.

End interfaces.

(** *** The concrete exchange *)

#[local] Existing Instances bots paper.

(** C2, as the spec states it, fails: attaching to an empty registry, the
    call of [setup] is logged with a registry that already holds the new
    entry. *)
Lemma append_model_setup_sees_entry :
  append_model "btc_bot" "BTC-USD" "fast" empty_desk
  = (Ok tt,
     advance (set_models (λ _, [("BTC-USD", btc_entry)]) empty_desk) []
       [GetAssetState "BTC-USD" (inr "assets of BTC-USD");
        GetState "btc_bot" (inr "state of btc_bot");
        Setup "btc_bot" "coinbase_pro" "BTC-USD" "preferences"
          {| fs_account := "assets of BTC-USD";
             fs_model := "state of btc_bot" |} "interface" (inr tt)]) ∧
  ¬ setup_before_store empty_desk "btc_bot" "BTC-USD" "fast".
Proof.
  split; [by vm_compute|].
  intros Hclaim.
  apply (Hclaim
    {| at_models := [("BTC-USD", btc_entry)];
       what := Setup "btc_bot" "coinbase_pro" "BTC-USD" "preferences"
                 {| fs_account := "assets of BTC-USD";
                    fs_model := "state of btc_bot" |} "interface" (inr tt) |}).
  - vm_compute. do 2 right. left.
  - reflexivity.
  - by vm_compute.
Qed.

(** The same order seen from outside: when [setup] raises, the entry is in
    the registry all the same. *)
Example append_model_broken_stays :
  (append_model "broken" "BTC-USD" "fast" empty_desk).1
  = Raise (Foreign "setup failed") ∧
  models (append_model "broken" "BTC-USD" "fast" empty_desk).2
  = [("BTC-USD", {| model := "broken"; args := "fast" |})].
Proof. by vm_compute. Qed.

Lemma append_model_stores_then_sets_up_witness :
  models (append_model "btc_bot" "ETH-USD" "fast" desk).2
  = dict_set "ETH-USD" btc_entry (models desk) ∧
  dict_get "ETH-USD" (dict_set "ETH-USD" btc_entry (models desk))
  = Some btc_entry ∧
  append_model "btc_bot" "ETH-USD" "fast" desk
  = (Ok tt,
     advance (set_models (dict_set "ETH-USD" btc_entry) desk) ["eth_bot"]
       [GetAssetState "ETH-USD" (inr "assets of ETH-USD");
        GetState "btc_bot" (inr "state of btc_bot");
        Setup "btc_bot" "coinbase_pro" "ETH-USD" "preferences"
          {| fs_account := "assets of ETH-USD";
             fs_model := "state of btc_bot" |} "interface" (inr tt)]).
Proof.
  destruct (append_model_stores_then_sets_up desk "btc_bot" "ETH-USD" "fast")
    as (Hstored & Hget & Hrun).
  split; [exact Hstored|]. split; [exact Hget|].
  exact (Hrun "assets of ETH-USD" ["eth_bot"] "state of btc_bot" ["eth_bot"]
           (inr tt) ["eth_bot"] eq_refl eq_refl eq_refl).
Defined.

Lemma append_model_reads_state_before_setup_witness :
  get_asset_state "ETH-USD" (world desk)
  = (inr "assets of ETH-USD", ["eth_bot"]) ∧
  ∃ r w2, get_state "btc_bot" ["eth_bot"] = (r, w2) ∧
    match r with
    | inl tag =>
        append_model "btc_bot" "ETH-USD" "fast" desk
        = (Raise (Foreign tag),
           advance (set_models (dict_set "ETH-USD" btc_entry) desk) w2
             [GetAssetState "ETH-USD" (inr "assets of ETH-USD");
              GetState "btc_bot" (inl tag)])
    | inr ms =>
        ∃ r3 w3,
          setup "btc_bot" (__type desk) "ETH-USD" (preferences desk)
            {| fs_account := "assets of ETH-USD"; fs_model := ms |}
            (Interface desk) w2 = (r3, w3) ∧
          append_model "btc_bot" "ETH-USD" "fast" desk
          = (lift_outcome r3,
             advance (set_models (dict_set "ETH-USD" btc_entry) desk) w3
               [GetAssetState "ETH-USD" (inr "assets of ETH-USD");
                GetState "btc_bot" (inr ms);
                Setup "btc_bot" (__type desk) "ETH-USD" (preferences desk)
                  {| fs_account := "assets of ETH-USD"; fs_model := ms |}
                  (Interface desk) r3])
    end.
Proof.
  split; [reflexivity|].
  exact (append_model_reads_state_before_setup desk "btc_bot" "ETH-USD"
           "fast" "assets of ETH-USD" ["eth_bot"] eq_refl).
Defined.

(** The bulk start on the desk: the first bot is run, the second is left
    alone. *)
Example start_models_desk :
  start_models None desk
  = (Ok tt,
     advance desk ["btc_bot"; "eth_bot"]
       [IsRunning "btc_bot" (inr false); Run "btc_bot" "fast" (inr tt);
        Sleep (1 # 10);
        IsRunning "eth_bot" (inr true);
        Print "Ignoring the model on ETH-USD"]).
Proof. by vm_compute. Qed.

Lemma start_models_all_witness :
  dict_wf (models desk) ∧
  (∀ coin e w, (coin, e) ∈ models desk →
     ∃ b w', is_running (model e) w = (inr b, w')) ∧
  (∀ coin e w, (coin, e) ∈ models desk →
     ∃ w', run (model e) (args e) w = (inr tt, w')) ∧
  ∃ evs w',
    start_models None desk = (Ok tt, advance desk w' evs) ∧
    models (advance desk w' evs) = models desk ∧
    bulk_start (models desk) (world desk) evs w' ∧
    queried evs = registered (models desk) ∧
    started evs `sublist_of` registered (models desk) ∧
    (NoDup (registered (models desk)) →
       NoDup (started evs) ∧
       ∀ m, IsRunning m (inr true) ∈ evs → ∀ a r, Run m a r ∉ evs).
Proof.
  assert (dict_wf (models desk)) as Hwf by (by compute_done).
  assert (∀ coin (e : @entry string) (w : list string),
            (coin, e) ∈ models desk →
            ∃ b w', is_running (model e) w = (inr b, w')) as Hq
    by (intros; eexists _, _; reflexivity).
  assert (∀ coin (e : @entry string) (w : list string),
            (coin, e) ∈ models desk →
            ∃ w', run (model e) (args e) w = (inr tt, w')) as Hr
    by (intros; eexists; reflexivity).
  split; [exact Hwf|]. split; [exact Hq|]. split; [exact Hr|].
  exact (start_models_all desk Hwf Hq Hr).
Defined.

Lemma start_models_one_witness :
  dict_get "BTC-USD" (models desk) = Some btc_entry ∧
  ∃ r w1, is_running (model btc_entry) (world desk) = (r, w1) ∧
    match r with
    | inr true =>
        start_models (Some "BTC-USD") desk
        = (Ok tt, advance desk w1 [IsRunning (model btc_entry) r])
    | inr false =>
        ∃ r2 w2, run (model btc_entry) (args btc_entry) w1 = (r2, w2) ∧
          start_models (Some "BTC-USD") desk
          = (lift_outcome r2,
             advance desk w2 [IsRunning (model btc_entry) r;
                              Run (model btc_entry) (args btc_entry) r2])
    | inl tag =>
        start_models (Some "BTC-USD") desk
        = (Raise (Foreign tag),
           advance desk w1 [IsRunning (model btc_entry) r])
    end.
Proof.
  split; [reflexivity|].
  exact (start_models_one desk "BTC-USD" btc_entry eq_refl).
Defined.

(** Starting the bot that already runs does nothing but ask. *)
Example start_models_running_desk :
  start_models (Some "ETH-USD") desk
  = (Ok tt, advance desk ["eth_bot"] [IsRunning "eth_bot" (inr true)]).
Proof. by vm_compute. Qed.

Lemma model_state_and_write_value_witness :
  dict_get "BTC-USD" (models desk) = Some btc_entry ∧
  dict_get "XLM-USD" (models desk) = None ∧
  get_model_state "BTC-USD" desk
  = (Ok "state of btc_bot",
     advance desk ["eth_bot"] [GetState "btc_bot" (inr "state of btc_bot")]) ∧
  write_value "BTC-USD" "note" "hello" desk
  = (Ok tt,
     advance desk ["eth_bot"] [UpdateState "btc_bot" "note" "hello" (inr tt)]) ∧
  get_model_state "XLM-USD" desk = (Raise (KeyError "XLM-USD"), desk) ∧
  write_value "XLM-USD" "note" "hello" desk
  = (Raise (KeyError "XLM-USD"), desk).
Proof.
  destruct (model_state_and_write_value desk "BTC-USD" "note" "hello")
    as (_ & _ & _ & Hsome & _ & _).
  destruct (Hsome btc_entry eq_refl) as [Hget Hwrite].
  destruct (model_state_and_write_value desk "XLM-USD" "note" "hello")
    as (_ & _ & Hnone & _).
  destruct (Hnone eq_refl) as [Hget_none Hwrite_none].
  split; [reflexivity|]. split; [reflexivity|].
  split; [exact (Hget _ _ eq_refl)|]. split; [exact (Hwrite _ _ eq_refl)|].
  split; [exact Hget_none|exact Hwrite_none].
Defined.

Lemma unknown_symbol_witness :
  dict_get "XLM-USD" (models desk) = None ∧
  start_models (Some "XLM-USD") desk = (Raise (KeyError "XLM-USD"), desk) ∧
  ∃ r w, get_asset_state "XLM-USD" (world desk) = (r, w) ∧
    get_full_state "XLM-USD" desk
    = (match r with
       | inl tag => Raise (Foreign tag)
       | inr _ => Raise (KeyError "XLM-USD")
       end,
       advance desk w [GetAssetState "XLM-USD" r]).
Proof.
  split; [reflexivity|].
  exact (unknown_symbol desk "XLM-USD" eq_refl).
Defined.

(** On the faulty desk the first bot is run, the broken one raises, and the
    third is never asked. *)
Lemma start_models_stops_at_first_raise_witness :
  dict_wf (models faulty_desk) ∧
  bulk_start (H := faulty_bots) [("BTC-USD", btc_entry)]
    (world faulty_desk)
    [IsRunning "btc_bot" (inr false); Run "btc_bot" "fast" (inr tt);
     Sleep (1 # 10)] ["btc_bot"] ∧
  start_models (H := faulty_bots) None faulty_desk
  = (Raise (Foreign "run failed"),
     advance faulty_desk ["btc_bot"]
       ([IsRunning "btc_bot" (inr false); Run "btc_bot" "fast" (inr tt);
         Sleep (1 # 10)]
        ++ [IsRunning "broken" (inr false);
            Run "broken" "fast" (inl "run failed")])).
Proof.
  assert (dict_wf (models faulty_desk)) as Hwf by (by compute_done).
  assert (bulk_start (H := faulty_bots) [("BTC-USD", btc_entry)]
            (world faulty_desk)
            [IsRunning "btc_bot" (inr false); Run "btc_bot" "fast" (inr tt);
             Sleep (1 # 10)] ["btc_bot"]) as Hpre.
  { apply (bulk_start_run (H := faulty_bots) "BTC-USD" btc_entry []
             [] [] ["btc_bot"] [] ["btc_bot"] eq_refl eq_refl).
    apply (bulk_start_done (H := faulty_bots)). }
  split; [exact Hwf|]. split; [exact Hpre|].
  exact (proj2 (start_models_stops_at_first_raise (runtime := faulty_bots)
                  faulty_desk [("BTC-USD", btc_entry)] "XLM-USD"
                  {| model := "broken"; args := "fast" |}
                  [("ETH-USD", eth_entry)] _ ["btc_bot"] Hwf eq_refl Hpre)
           ["btc_bot"] "run failed" ["btc_bot"] eq_refl eq_refl).
Defined.

Lemma start_models_all_as_singles_witness :
  dict_wf (models desk) ∧
  ∃ evs w',
    start_models None desk = (Ok tt, advance desk w' evs) ∧
    for_each (dict_keys (models desk)) (λ coin, start_models (Some coin)) desk
    = (Ok tt, advance desk w' (List.filter is_model_call evs)).
Proof.
  assert (dict_wf (models desk)) as Hwf by (by compute_done).
  split; [exact Hwf|].
  apply (start_models_all_as_singles desk Hwf).
  - intros; eexists _, _; reflexivity.
  - intros; eexists; reflexivity.
Defined.

End ExchangeFacts.

(** ** The signal pipeline *)

Module SignalFacts.

Import Signal PyFacts.

(** *** More fuel changes nothing *)



(** *** The copy is a copy *)
Section deepcopy_correct.

Context {interpreter : Interpreter}.
Context (h0 : heap) (Hclosed : closed h0).
















Section copy_facts.

Context (h' : heap) (memo : gmap nat nat).
Context (Hext : h0 ⊆ h').
Context (Hcopied : ∀ l, is_Some (memo !! l) → copied h0 memo h' l).
Context (Hnew : ∀ l l', memo !! l = Some l' → h0 !! l' = None).




End copy_facts.


End deepcopy_correct.

(** *** The pipeline, step by step *)
Section pipeline.

Context {interpreter : Interpreter}.

Lemma after_calls_after_calls s h1 evs1 h2 evs2 :
  after_calls (after_calls s h1 evs1) h2 evs2 = after_calls s h2 (evs1 ++ evs2).
Proof. unfold after_calls; simpl. by rewrite app_assoc. Qed.

Lemma after_calls_nil s : after_calls s (store s) [] = s.
Proof. destruct s. unfold after_calls; simpl. by rewrite app_nil_r. Qed.

Lemma closed_setitem h l d key value :
  closed h → h !! l = Some d → val_in h value →
  closed (<[l := <[key := value]> d]> h).
Proof.
  intros Hc Hl Hv.
  assert (∀ v, val_in h v → val_in (<[l := <[key := value]> d]> h) v) as Hin.
  { intros [| | | |l0]; simpl; try done. rewrite dom_insert. set_solver. }
  intros l1 d1 k v [[<- <-]|[Hne Hl1]]%lookup_insert_Some Hk; apply Hin.
  - apply lookup_insert_Some in Hk as [[_ <-]|[_ Hk]]; [done|].
    by eapply Hc.
  - by eapply Hc.
Qed.

Lemma closed_new_dict (h : heap) l : closed h → closed (<[l := ∅]> h).
Proof.
  intros Hc l1 d1 k v [[<- <-]|[Hne Hl1]]%lookup_insert_Some Hk.
  - by rewrite lookup_empty in Hk.
  - specialize (Hc l1 d1 k v Hl1 Hk). destruct v; simpl in *; try done.
    rewrite dom_insert. set_solver.
Qed.

Lemma invoke_tame lr f name arguments s :
  tame lr f → closed (store s) → lr ∈ dom (store s) →
  ∃ v h,
    f arguments (store s) = (inr v, h) ∧
    invoke name f arguments s
    = (Ok v, after_calls s h [Called name arguments (inr v)]) ∧
    closed h ∧ val_in h v ∧ dom (store s) ⊆ dom h ∧ h !! lr = store s !! lr.
Proof.
  intros Htame Hc Hlr.
  destruct (Htame arguments (store s) Hc Hlr) as (v & h & Hf & ? & ? & ? & ?).
  exists v, h. unfold invoke. by rewrite Hf.
Qed.

(** The loop over the symbols, with an evaluator that behaves. *)
Lemma run_symbols_loop lr ev :
  tame lr ev →
  ∀ syms s d,
    closed (store s) → raw_results s = VRef lr → store s !! lr = Some d →
    ∃ h results,
      for_each syms (run_symbol ev) s
      = (Ok tt, after_calls s h (evaluations (signal_state s) syms results)) ∧
      closed h ∧ dom (store s) ⊆ dom h ∧
      List.length results = List.length syms ∧
      h !! lr = Some (assigned d syms results).
Proof.
  intros Htame syms.
  induction syms as [|i syms IH]; intros s d Hc Hraw Hd.
  - exists (store s), []. simpl. unfold ret. rewrite after_calls_nil. done.
  - assert (lr ∈ dom (store s)) as Hlr by (apply elem_of_dom; eauto).
    destruct (invoke_tame lr ev "evaluator" [VStr i; signal_state s] s
                Htame Hc Hlr)
      as (v & h1 & Hf & Hinv & Hc1 & Hv & Hdom1 & Hlr1).
    rewrite Hd in Hlr1.
    destruct (IH (after_calls s (<[lr := <[i := v]> d]> h1)
                    [Called "evaluator" [VStr i; signal_state s] (inr v)])
                 (<[i := v]> d))
      as (h & results & Hloop & Hc' & Hdom' & Hlen & Hlr').
    { by apply closed_setitem. }
    { done. }
    { apply lookup_insert_eq. }
    exists h, (v :: results).
    cbn [for_each]. unfold bind at 1. unfold run_symbol at 1.
    unfold bind, gets. rewrite Hinv. cbn [raw_results after_calls].
    rewrite Hraw. unfold setitem. cbn [store after_calls]. rewrite Hlr1.
    change (set_store ?h' (after_calls s ?h1' ?evs))
      with (after_calls s h' evs).
    rewrite Hloop, after_calls_after_calls.
    split; [done|]. split; [done|]. split; [|split].
    + etrans; [exact Hdom1|]. etrans; [|exact Hdom']. cbn [store after_calls].
      rewrite dom_insert. set_solver.
    + simpl. by rewrite Hlen.
    + exact Hlr'.
Qed.

Lemma run_init_spec lr s :
  (∀ f, init (__callables s) = Some f → tame lr f) →
  closed (store s) → lr ∈ dom (store s) →
  ∃ h,
    run_init s = (Ok tt, after_calls s h (init_events s)) ∧
    closed h ∧ dom (store s) ⊆ dom h ∧ h !! lr = store s !! lr.
Proof.
  intros Htame Hc Hlr. unfold run_init, init_events, bind, gets.
  destruct (init (__callables s)) as [f|] eqn:Hinit.
  - destruct (invoke_tame lr f "init" [signal_state s] s (Htame f eq_refl)
                Hc Hlr)
      as (v & h & Hf & Hinv & Hc' & _ & Hdom & Hlr').
    exists h. rewrite Hinv, Hf. done.
  - exists (store s). unfold ret. rewrite after_calls_nil. done.
Qed.

(** *** The constructor *)

Lemma new_signal_run h exchange exchange_interface evaluator symbols init
    teardown formatter :
  __init__ h exchange exchange_interface evaluator symbols init teardown
    formatter
  = __run (new_signal h exchange exchange_interface evaluator symbols init
             teardown formatter).
Proof. reflexivity. Qed.

Lemma new_signal_raw_results h exchange exchange_interface evaluator symbols
    init teardown formatter :
  let s := new_signal h exchange exchange_interface evaluator symbols init
             teardown formatter in
  ∃ lr, raw_results s = VRef lr ∧ store s !! lr = Some ∅.
Proof.
  eexists. split; [reflexivity|]. cbn [store new_signal].
  rewrite lookup_insert_ne; [apply lookup_insert_eq|].
  intros Heq.
  match type of Heq with
  | fresh (dom ?h2) = _ => pose proof (is_fresh (dom h2)) as Hfresh
  end.
  rewrite Heq in Hfresh. apply Hfresh.
  rewrite dom_insert. set_solver.
Qed.

Lemma new_signal_closed h exchange exchange_interface evaluator symbols init
    teardown formatter :
  closed h →
  closed (store (new_signal h exchange exchange_interface evaluator symbols
                   init teardown formatter)).
Proof. intros Hc. cbn [store new_signal]. by do 3 apply closed_new_dict. Qed.

(** C4.  Constructing a signal whose evaluator is not callable.  The raw
    results are a new empty dict when [__run] starts.  Without a callable
    init the constructor raises [TypeError] at once, with no call made and
    the store untouched.  With a callable init, init is called once, with
    the signal state; if it returns, the constructor raises [TypeError]
    (if it raises, its own exception comes out).  Either way the evaluator
    is never called: the calls made are the one call of init, or none.  The
    store is as init left it, so the raw results are still the empty dict
    unless init itself has written to it. *)
Theorem non_callable_evaluator_rejected h exchange exchange_interface symbols
    init teardown formatter :
  let s := new_signal h exchange exchange_interface None symbols init teardown
             formatter in
  let failed := __init__ h exchange exchange_interface None symbols init
                  teardown formatter in
  ∃ lr,
    raw_results s = VRef lr ∧ store s !! lr = Some ∅ ∧
    match init with
    | None =>
        failed
        = (Raise (TypeError "Must pass a callable for the evaluator."), s)
    | Some f =>
        ∃ r h', f [signal_state s] (store s) = (r, h') ∧
          failed
          = (match r with
             | inl tag => Raise (Foreign tag)
             | inr _ =>
                 Raise (TypeError "Must pass a callable for the evaluator.")
             end,
             after_calls s h' [Called "init" [signal_state s] r]) ∧
          (h' !! lr = Some ∅ → store failed.2 !! lr = Some ∅)
    end ∧
    raw_results failed.2 = VRef lr ∧
    trace failed.2 = init_events s.
Proof.
  intros s failed.
  destruct (new_signal_raw_results h exchange exchange_interface None symbols
              init teardown formatter)
    as (lr & Hraw & Hempty).
  fold s in Hraw, Hempty. exists lr. split; [done|]. split; [done|].
  unfold failed. rewrite new_signal_run. fold s.
  unfold __run, run_through_copy, run_init, require_evaluator, init_events,
    bind, gets.
  destruct init as [f|]; cbn [Signal.init __callables s new_signal].
  - destruct (f [signal_state s] (store s)) as [r h'] eqn:Hf.
    unfold invoke. cbn [store signal_state s new_signal] in Hf |- *.
    rewrite Hf.
    destruct r as [tag|v]; cbn [lift_outcome fst snd]; (split; [|done]).
    + by exists (inl tag), h'.
    + by exists (inr v), h'.
  - done.
Qed.

(** *** The course of a run *)

Lemma grown_refl s : grown s s [].
Proof. split; try done. by rewrite app_nil_r. Qed.

Lemma grown_trans s s1 s2 evs1 evs2 :
  grown s s1 evs1 → grown s1 s2 evs2 → grown s s2 (evs1 ++ evs2).
Proof.
  intros [] []. split; try congruence. rewrite app_assoc. congruence.
Qed.

Lemma grown_after_calls s h evs : grown s (after_calls s h evs) evs.
Proof. by split. Qed.

Lemma obeys_bind {A B} (c : M state A) (k : A → M state B) names1 names2 s :
  obeys c names1 s →
  (∀ a s1 evs, c s = (Ok a, s1) → grown s s1 evs → obeys (k a) names2 s1) →
  obeys (bind c k) (names1 ++ names2) s.
Proof.
  intros (evs1 & G1 & P1 & F1) Hk. unfold obeys, bind.
  destruct (c s) as [[a|err] s1] eqn:Hc; cbn [fst snd] in *.
  - destruct (Hk a s1 evs1 eq_refl G1) as (evs2 & G2 & P2 & F2).
    exists (evs1 ++ evs2). split; [by eapply grown_trans|].
    rewrite fmap_app, F1 by eauto. split.
    + by apply prefix_app.
    + intros Hok. by rewrite F2.
  - exists evs1. split; [done|]. split.
    + by apply prefix_app_r.
    + by intros [a Ha].
Qed.

Lemma obeys_gets_bind {A B} (f : state → A) (k : A → M state B) names s :
  obeys (k (f s)) names s → obeys (bind (gets f) k) names s.
Proof. intros H. exact H. Qed.

Lemma obeys_ret {A} (a : A) s : obeys (ret a) [] s.
Proof. exists []. split; [apply grown_refl|done]. Qed.

Lemma obeys_raise {A} e names s : obeys (raise (A := A) e) names s.
Proof.
  exists []. split; [apply grown_refl|]. split; [apply prefix_nil|].
  by intros [a Ha].
Qed.

Lemma obeys_invoke name f arguments s :
  obeys (invoke name f arguments) [name] s.
Proof.
  unfold obeys, invoke. destruct (f arguments (store s)) as [r h].
  exists [Called name arguments r]. split; [apply grown_after_calls|done].
Qed.

Lemma obeys_setitem target key value s : obeys (setitem target key value) [] s.
Proof.
  exists []. split; [|done]. unfold setitem.
  destruct target as [| | | |l]; try apply grown_refl.
  destruct (store s !! l); [|apply grown_refl].
  split; try done. cbn. by rewrite app_nil_r.
Qed.

Lemma obeys_deepcopy_m x s : obeys (deepcopy_m x) [] s.
Proof.
  exists []. split; [|done]. unfold deepcopy_m.
  destruct (deepcopy x (store s)) as [[y h]|]; [|apply grown_refl].
  split; try done. cbn. by rewrite app_nil_r.
Qed.

Lemma obeys_set_formatted_results v s :
  obeys (modify (set_formatted_results v)) [] s.
Proof.
  exists []. split; [|done]. split; try done. cbn. by rewrite app_nil_r.
Qed.

Lemma obeys_run_init s : obeys run_init (once "init" (init (__callables s))) s.
Proof.
  unfold run_init. apply obeys_gets_bind.
  destruct (init (__callables s)) as [f|]; cbn [once]; [|apply obeys_ret].
  apply obeys_gets_bind.
  apply (obeys_bind _ _ ["init"] []); [apply obeys_invoke|].
  intros. apply obeys_ret.
Qed.

Lemma obeys_run_symbol ev i s : obeys (run_symbol ev i) ["evaluator"] s.
Proof.
  unfold run_symbol. apply obeys_gets_bind.
  apply (obeys_bind _ _ ["evaluator"] []); [apply obeys_invoke|].
  intros v s1 evs _ _. apply obeys_gets_bind. apply obeys_setitem.
Qed.

Lemma obeys_run_symbols ev s :
  obeys (run_symbols ev) (replicate (List.length (symbols s)) "evaluator") s.
Proof.
  unfold run_symbols. apply obeys_gets_bind.
  generalize (symbols s) as syms. intros syms. revert s.
  induction syms as [|i syms IH]; intros s; [apply obeys_ret|].
  cbn [for_each List.length replicate].
  apply (obeys_bind _ _ ["evaluator"]); [apply obeys_run_symbol|].
  intros. apply IH.
Qed.

Lemma obeys_copy_results s : obeys copy_results [] s.
Proof.
  unfold copy_results. apply obeys_gets_bind.
  apply (obeys_bind _ _ [] []); [apply obeys_deepcopy_m|].
  intros. apply obeys_set_formatted_results.
Qed.



Lemma obeys_run_through_copy s :
  obeys run_through_copy
    (once "init" (init (__callables s))
     ++ replicate (List.length (symbols s)) "evaluator") s.
Proof.
  unfold run_through_copy.
  apply obeys_bind; [apply obeys_run_init|]. intros [] s1 evs1 _ G1.
  apply (obeys_bind _ _ []).
  { unfold require_evaluator. apply obeys_gets_bind.
    destruct (evaluator (__callables s1)); [apply obeys_ret|apply obeys_raise]. }
  intros ev s2 evs2 _ G2.
  rewrite <- (grown_symbols _ _ _ G1), <- (grown_symbols _ _ _ G2).
  rewrite <- (app_nil_r (replicate _ _)).
  apply obeys_bind; [apply obeys_run_symbols|].
  intros. apply obeys_copy_results.
Qed.


(** *** The copy, and the run after it *)


(** The run up to the end of the loop, with an evaluator and an init that
    behave. *)
Lemma run_through_loop_ok s lr d ev :
  closed (store s) →
  raw_results s = VRef lr →
  store s !! lr = Some d →
  evaluator (__callables s) = Some ev →
  tame lr ev →
  (∀ f, init (__callables s) = Some f → tame lr f) →
  ∃ h results,
    run_through_loop s
    = (Ok tt,
       after_calls s h
         (init_events s
          ++ evaluations (signal_state s) (symbols s) results)) ∧
    closed h ∧
    List.length results = List.length (symbols s) ∧
    h !! lr = Some (assigned d (symbols s) results).
Proof.
  intros Hc Hraw Hd Hev Htame Hinit.
  assert (lr ∈ dom (store s)) as Hlr by (apply elem_of_dom; eauto).
  destruct (run_init_spec lr s Hinit Hc Hlr)
    as (h1 & Hrun1 & Hc1 & Hdom1 & Hlr1).
  rewrite Hd in Hlr1.
  destruct (run_symbols_loop lr ev Htame (symbols s)
              (after_calls s h1 (init_events s)) d Hc1 Hraw Hlr1)
    as (h2 & results & Hloop & Hc2 & Hdom2 & Hlen & Hlr2).
  rewrite after_calls_after_calls in Hloop.
  change (signal_state (after_calls s h1 (init_events s)))
    with (signal_state s) in Hloop.
  exists h2, results. split; [|done].
  unfold run_through_loop. unfold bind at 1. rewrite Hrun1.
  unfold bind at 1. unfold require_evaluator, bind at 1, gets.
  cbn [__callables after_calls]. rewrite Hev. unfold ret.
  unfold run_symbols, bind, gets. cbn [symbols after_calls]. exact Hloop.
Qed.






Lemma run_init_outcome s r h1 :
  init_outcome s = (r, h1) →
  run_init s
  = (match r with inl tag => Raise (Foreign tag) | inr _ => Ok tt end,
     after_calls s h1 (init_events s)).
Proof.
  unfold init_outcome, run_init, init_events, bind, gets.
  destruct (init (__callables s)) as [f|].
  - intros Hf. unfold invoke. rewrite Hf. by destruct r.
  - intros [= <- <-]. unfold ret. by rewrite after_calls_nil.
Qed.

Lemma evaluated_loop ev st lr syms h results h' :
  evaluated ev st lr syms h results h' →
  ∀ s, store s = h → signal_state s = st → raw_results s = VRef lr →
    for_each syms (run_symbol ev) s
    = (Ok tt, after_calls s h' (evaluations st syms results)).
Proof.
  induction 1 as [h|i syms h v h1 d results h' Hev Hd _ IH];
    intros s Hs Hst Hraw.
  - simpl. unfold ret. by rewrite <- Hs, after_calls_nil.
  - cbn [for_each]. unfold bind at 1. unfold run_symbol at 1.
    unfold bind, gets, invoke. rewrite Hst, Hs, Hev.
    cbn [lift_outcome raw_results after_calls]. rewrite Hraw.
    unfold setitem. cbn [store after_calls]. rewrite Hd.
    change (set_store ?h' (after_calls s ?h1' ?evs))
      with (after_calls s h' evs).
    rewrite (IH (after_calls s _ _)) by done.
    by rewrite after_calls_after_calls.
Qed.

(** X12.  The evaluator raises at a symbol.  When init has returned and
    the evaluator has returned for the symbols before it, the exception
    comes out of [__run] at once: the symbols after it are not evaluated,
    no copy is made, neither the formatter nor teardown is called, and the
    formatted results are what they were before the run.  The results of
    the earlier symbols stay in the raw results. *)
Theorem evaluator_raise_stops_run s ev lr pre i post v0 h1 results h2 tag h3 :
  evaluator (__callables s) = Some ev →
  raw_results s = VRef lr →
  symbols s = pre ++ i :: post →
  init_outcome s = (inr v0, h1) →
  evaluated ev (signal_state s) lr pre h1 results h2 →
  ev [VStr i; signal_state s] h2 = (inl tag, h3) →
  __run s
  = (Raise (Foreign tag),
     after_calls s h3
       (init_events s
        ++ evaluations (signal_state s) pre results
        ++ [Called "evaluator" [VStr i; signal_state s] (inl tag)])) ∧
  formatted_results (__run s).2 = formatted_results s.
Proof.
  intros Hev Hraw Hsyms Hinit Hpre Hraise.
  pose proof (run_init_outcome s (inr v0) h1 Hinit) as Hrun1.
  pose proof (evaluated_loop _ _ _ _ _ _ _ Hpre
                (after_calls s h1 (init_events s)) eq_refl eq_refl Hraw)
    as Hloop.
  assert (run_through_copy s
          = (Raise (Foreign tag),
             after_calls s h3
               (init_events s
                ++ evaluations (signal_state s) pre results
                ++ [Called "evaluator" [VStr i; signal_state s] (inl tag)])))
    as Hrun.
  { unfold run_through_copy. unfold bind at 1. rewrite Hrun1.
    unfold bind at 1. unfold require_evaluator, bind at 1, gets.
    cbn [__callables after_calls]. rewrite Hev. unfold ret.
    unfold bind at 1. unfold run_symbols, bind at 1, gets.
    cbn [symbols after_calls]. rewrite Hsyms, for_each_app.
    unfold bind at 1. rewrite Hloop.
    cbn [for_each]. unfold bind at 1. unfold run_symbol at 1.
    unfold bind at 1 2, gets, invoke.
    cbn [signal_state store after_calls]. rewrite Hraise.
    cbn [lift_outcome]. by rewrite !after_calls_after_calls. }
  unfold __run. unfold bind at 1 3. rewrite Hrun. by split.
Qed.

Lemma assigned_other syms : ∀ results d k,
  k ∉ syms → assigned d syms results !! k = d !! k.
Proof.
  induction syms as [|i syms IH]; intros [|v results] d k Hk; try done.
  change (assigned d (i :: syms) (v :: results))
    with (assigned (<[i := v]> d) syms results).
  apply not_elem_of_cons in Hk as [Hne Hk].
  rewrite IH by done. by apply lookup_insert_ne.
Qed.

Lemma assigned_dom syms : ∀ results d,
  List.length results = List.length syms →
  dom (assigned d syms results) = dom d ∪ list_to_set syms.
Proof.
  induction syms as [|i syms IH]; intros [|v results] d Hlen; try done.
  - cbn. by rewrite union_empty_r_L.
  - change (assigned d (i :: syms) (v :: results))
      with (assigned (<[i := v]> d) syms results).
    rewrite IH by (simpl in Hlen; congruence).
    rewrite dom_insert_L, list_to_set_cons.
    by rewrite (comm_L (∪) {[i]} (dom d)), (assoc_L (∪)).
Qed.

Lemma assigned_last pre : ∀ results d i post,
  i ∉ post →
  List.length results = List.length (pre ++ i :: post) →
  assigned d (pre ++ i :: post) results !! i = results !! List.length pre.
Proof.
  induction pre as [|j pre IH]; intros [|v results] d i post Hi Hlen;
    try done.
  - change (assigned d ([] ++ i :: post) (v :: results))
      with (assigned (<[i := v]> d) post results).
    rewrite assigned_other by done. apply lookup_insert_eq.
  - change (assigned d ((j :: pre) ++ i :: post) (v :: results))
      with (assigned (<[j := v]> d) (pre ++ i :: post) results).
    simpl. apply IH; [done|]. simpl in Hlen. congruence.
Qed.

(** X13.  The raw results at the end of the loop, with an evaluator and
    an init that behave ([tame]).  Their keys are the keys they had and the
    symbols.  A key that is not a symbol keeps its value.  A symbol holds
    what the evaluator returned at its last place in the list: a symbol
    that is listed twice is evaluated twice, and the later result replaces
    the earlier one. *)
Theorem raw_results_by_symbol s lr d ev :
  closed (store s) →
  raw_results s = VRef lr →
  store s !! lr = Some d →
  evaluator (__callables s) = Some ev →
  tame lr ev →
  (∀ f, init (__callables s) = Some f → tame lr f) →
  ∃ s1 results d',
    run_through_loop s = (Ok tt, s1) ∧
    List.length results = List.length (symbols s) ∧
    trace s1 = trace s ++ init_events s
                 ++ evaluations (signal_state s) (symbols s) results ∧
    raw_results s1 = VRef lr ∧
    store s1 !! lr = Some d' ∧
    dom d' = dom d ∪ list_to_set (symbols s) ∧
    (∀ k, k ∉ symbols s → d' !! k = d !! k) ∧
    (∀ pre i post, symbols s = pre ++ i :: post → i ∉ post →
       d' !! i = results !! List.length pre).
Proof.
  intros Hc Hraw Hd Hev Htame Hinit.
  destruct (run_through_loop_ok s lr d ev Hc Hraw Hd Hev Htame Hinit)
    as (h & results & Hrun & _ & Hlen & Hlr).
  eexists _, results, _. split; [exact Hrun|]. split; [done|].
  split; [done|]. split; [done|]. split; [exact Hlr|].
  split; [by apply assigned_dom|]. split.
  - intros k Hk. by apply assigned_other.
  - intros pre i post Hsyms Hi. rewrite Hsyms in Hlen |- *.
    by apply assigned_last.
Qed.

(** X14.  The formatter decides what is reported.  When the run has made
    the copy, the formatter is called with the copy and the signal state.
    If it raises, the exception comes out, teardown is not called and the
    formatted results stay the copy.  If it returns, the formatted results
    are what it returned, whatever that is and whatever teardown does, and
    that is what [notify] sends unless it is given an output that is not
    [None]. *)
Theorem formatter_result_is_reported s s2 f r h :
  run_through_copy s = (Ok tt, s2) →
  formatter (__callables s) = Some f →
  f [formatted_results s2; signal_state s] (store s2) = (r, h) →
  let called :=
    after_calls s2 h
      [Called "formatter" [formatted_results s2; signal_state s] r] in
  match r with
  | inl tag => __run s = (Raise (Foreign tag), called)
  | inr v =>
      __run s = run_teardown (set_formatted_results v called) ∧
      formatted_results (__run s).2 = v ∧
      ∀ output,
        trace (notify output (__run s).2).2
        = trace (__run s).2
            ++ [Emailed (if decide (output = VNone) then v else output)]
  end.
Proof.
  intros Hrun Hfmt Hf called.
  destruct (obeys_run_through_copy s) as (evs & G & _).
  rewrite Hrun in G. cbn [snd] in G.
  assert (run_formatter s2
          = (match r with
             | inl tag => Raise (Foreign tag)
             | inr _ => Ok tt
             end,
             match r with
             | inl _ => called
             | inr v => set_formatted_results v called
             end)) as Hformat.
  { unfold run_formatter, bind, gets, invoke.
    rewrite (grown_callables _ _ _ G), Hfmt, (grown_signal_state _ _ _ G), Hf.
    by destruct r. }
  assert (__run s
          = match r with
            | inl tag => (Raise (Foreign tag), called)
            | inr v => run_teardown (set_formatted_results v called)
            end) as Hrest.
  { unfold __run. unfold bind at 1. rewrite Hrun.
    unfold bind. rewrite Hformat. by destruct r. }
  rewrite Hrest. destruct r as [tag|v]; [done|].
  split; [done|].
  assert (formatted_results (run_teardown (set_formatted_results v called)).2
          = v) as Hv.
  { unfold run_teardown, bind, gets, invoke, ret.
    destruct (teardown _) as [td|]; [|done].
    destruct (td _ _) as [[tag|v'] h']; done. }
  split; [exact Hv|].
  intros output. unfold notify, bind, gets. cbn [snd trace after_calls].
  by rewrite Hv.
Qed.

(** X15.  The constructor gives the signal three new objects, for the
    signal state, the raw results and the formatted results: three
    different places that are not in the store it starts from, each an
    empty dict.  It leaves every other object as it is, and then runs
    [__run] on this signal, with an empty trace. *)
Theorem constructor_allocates h exch iface ev syms ini td fmt :
  let s := new_signal h exch iface ev syms ini td fmt in
  __init__ h exch iface ev syms ini td fmt = __run s ∧
  ∃ l_state l_raw l_formatted,
    signal_state s = VRef l_state ∧
    raw_results s = VRef l_raw ∧
    formatted_results s = VRef l_formatted ∧
    NoDup [l_state; l_raw; l_formatted] ∧
    (∀ l, l ∈ [l_state; l_raw; l_formatted] →
       h !! l = None ∧ store s !! l = Some ∅) ∧
    (∀ l, l ∉ [l_state; l_raw; l_formatted] → store s !! l = h !! l) ∧
    trace s = [].
Proof.
  intros s. split; [reflexivity|].
  set (ls := fresh (dom h)). set (h1 := <[ls := ∅]> h).
  set (lr := fresh (dom h1)). set (h2 := <[lr := ∅]> h1).
  set (lf := fresh (dom h2)).
  assert (ls ∉ dom h) as Hs by apply is_fresh.
  assert (lr ∉ dom h1) as Hr by apply is_fresh.
  assert (lf ∉ dom h2) as Hf by apply is_fresh.
  unfold h2 in Hf. rewrite dom_insert in Hf.
  unfold h1 in Hr, Hf. rewrite dom_insert in Hr, Hf.
  apply not_elem_of_union in Hr as [Hrs%not_elem_of_singleton Hr].
  apply not_elem_of_union in Hf as [Hfr%not_elem_of_singleton Hf].
  apply not_elem_of_union in Hf as [Hfs%not_elem_of_singleton Hf].
  apply not_elem_of_dom in Hs, Hr, Hf.
  exists ls, lr, lf. split; [done|]. split; [done|]. split; [done|].
  change (store s) with (<[lf := ∅]> (<[lr := ∅]> (<[ls := ∅]> h))).
  split; [|split; [|split; [|done]]]; clear s; clearbody ls lr lf.
  - apply NoDup_cons. split.
    { intros [?|?%list_elem_of_singleton]%elem_of_cons; congruence. }
    apply NoDup_cons. split; [|apply NoDup_singleton].
    intros ?%list_elem_of_singleton; congruence.
  - intros l Hl.
    apply elem_of_cons in Hl as [->|Hl]; [|apply elem_of_cons in Hl as [->|Hl]];
      [| |apply list_elem_of_singleton in Hl as ->].
    + split; [done|].
      rewrite lookup_insert_ne by done. rewrite lookup_insert_ne by done.
      apply lookup_insert_eq.
    + split; [done|]. rewrite lookup_insert_ne by done.
      apply lookup_insert_eq.
    + split; [done|]. apply lookup_insert_eq.
  - intros l Hl.
    assert (l ≠ ls ∧ l ≠ lr ∧ l ≠ lf) as (H1 & H2 & H3).
    { repeat split; intros ->; apply Hl; repeat constructor. }
    by rewrite !lookup_insert_ne.
Qed.

End pipeline.

(** *** The concrete signal *)

#[local] Existing Instance roomy.


Lemma classify_tame lr : tame lr classify.
Proof.
  intros arguments h Hc Hlr. eexists _, _. split; [reflexivity|].
  pose proof (is_fresh (dom h)) as Hfresh.
  split; [|split; [|split]].
  - intros l1 d1 k v [[<- <-]|[Hne Hl1]]%lookup_insert_Some Hk.
    + by apply lookup_singleton_Some in Hk as [_ <-].
    + specialize (Hc l1 d1 k v Hl1 Hk). destruct v; simpl in *; try done.
      rewrite dom_insert. set_solver.
  - simpl. rewrite dom_insert. set_solver.
  - rewrite dom_insert. set_solver.
  - apply lookup_insert_ne. intros Heq. by rewrite Heq in Hfresh.
Qed.

Example two_symbols_run :
  let '(r, s) := __run two_symbols in
  r = Ok tt ∧
  raw_results s = VRef 1 ∧ formatted_results s = VRef 5 ∧
  items (store s) 1 = Some 2%nat ∧
  item (store s) 1 "A" = Some (VRef 3) ∧
  item (store s) 1 "B" = Some (VRef 4) ∧
  item (store s) 3 "classification" = Some (VBool true) ∧
  item (store s) 4 "classification" = Some (VBool true) ∧
  items (store s) 5 = Some 2%nat ∧
  item (store s) 5 "A" = Some (VRef 6) ∧
  item (store s) 5 "B" = Some (VRef 7) ∧
  item (store s) 6 "classification" = Some (VBool true) ∧
  item (store s) 7 "classification" = Some (VBool true) ∧
  same_value 3 (store s) (raw_results s) (store s) (formatted_results s)
  = true.
Proof. by vm_compute. Qed.

(** With the overwriting formatter the copy changes and the raw results do
    not. *)
Example overwrite_leaves_raw_results :
  let '(r, s) := __init__ ∅ VNone VNone (Some classify) ["A"; "B"] None None
                   (Some overwrite) in
  r = Ok tt ∧
  raw_results s = VRef 1 ∧ formatted_results s = VRef 5 ∧
  items (store s) 1 = Some 2%nat ∧
  item (store s) 1 "A" = Some (VRef 3) ∧
  item (store s) 1 "B" = Some (VRef 4) ∧
  item (store s) 3 "classification" = Some (VBool true) ∧
  item (store s) 4 "classification" = Some (VBool true) ∧
  items (store s) 5 = Some 1%nat ∧
  item (store s) 5 "report" = Some (VStr "done").
Proof. by vm_compute. Qed.

(** Writing to the copy after the run, as a caller would, leaves the raw
    results as they are. *)
Example caller_mutation_leaves_raw_results :
  let '(_, s) := __run two_symbols in
  let '(r, s') :=
    (inner <- gets (λ s, default VNone (item (store s) 5 "A")) ;;
     setitem inner "classification" (VBool false)) s in
  r = Ok tt ∧
  item (store s') 6 "classification" = Some (VBool false) ∧
  item (store s') 3 "classification" = Some (VBool true) ∧
  same_value 3 (store s) (raw_results s) (store s') (raw_results s') = true ∧
  same_value 3 (store s') (raw_results s') (store s') (formatted_results s')
  = false.
Proof. by vm_compute. Qed.

(** No evaluator: init runs, then the constructor raises. *)
Example no_evaluator_run :
  let '(r, s) := __init__ ∅ VNone VNone None ["A"; "B"] (Some classify) None None in
  r = Raise (TypeError "Must pass a callable for the evaluator.") ∧
  trace s = [Called "init" [VRef 0] (inr (VRef 3))] ∧
  raw_results s = VRef 1 ∧ items (store s) 1 = Some 0%nat.
Proof. by vm_compute. Qed.


(** With the interpreter that goes two dicts deep, results that have notes
    are too deep to copy: the run raises, and the formatted results are
    still the empty dict of the constructor.  With room they are copied. *)
Example deepcopy_limit_reached :
  (let '(r, s') := __run (interpreter := tight) annotated in
   r = Raise RecursionError ∧
   item (store s') 1 "A" = Some (VRef 4) ∧
   formatted_results s' = VRef 2 ∧ items (store s') 2 = Some 0%nat) ∧
  (let '(r, s') := __run (interpreter := roomy) annotated in
   r = Ok tt ∧
   item (store s') 1 "A" = Some (VRef 4) ∧
   formatted_results s' = VRef 5 ∧ items (store s') 5 = Some 1%nat).
Proof. by vm_compute. Qed.


Lemma closed_empty : closed ∅.
Proof. intros l d k v Hl. by rewrite lookup_empty in Hl. Qed.

(** The picky evaluator on A, B, C: A is evaluated, B raises, C is never
    evaluated and the formatter is not called. *)
Lemma evaluator_raise_stops_run_witness :
  ∃ h1 v h2 h3,
    evaluator (__callables three_symbols) = Some picky ∧
    raw_results three_symbols = VRef 1 ∧
    symbols three_symbols = ["A"] ++ "B" :: ["C"] ∧
    init_outcome three_symbols = (inr VNone, h1) ∧
    evaluated picky (signal_state three_symbols) 1 ["A"] h1 [v] h2 ∧
    picky [VStr "B"; signal_state three_symbols] h2 = (inl "no data", h3) ∧
    __run three_symbols
    = (Raise (Foreign "no data"),
       after_calls three_symbols h3
         (init_events three_symbols
          ++ evaluations (signal_state three_symbols) ["A"] [v]
          ++ [Called "evaluator" [VStr "B"; signal_state three_symbols]
                (inl "no data")])) ∧
    formatted_results (__run three_symbols).2
    = formatted_results three_symbols.
Proof.
  assert (raw_results three_symbols = VRef 1) as Hraw by (by vm_compute).
  assert ((classify [VStr "A"; signal_state three_symbols]
             (store three_symbols)).2 !! 1%nat = Some ∅) as Hd
    by (by vm_compute).
  eexists _, _, _, _.
  split; [reflexivity|]. split; [exact Hraw|]. split; [reflexivity|].
  split; [reflexivity|].
  eassert (evaluated picky (signal_state three_symbols) 1 ["A"]
             (store three_symbols) [_] _) as Hpre.
  { eapply evaluated_cons; [reflexivity|exact Hd|apply evaluated_nil]. }
  split; [exact Hpre|]. split; [reflexivity|].
  exact (evaluator_raise_stops_run three_symbols picky 1 ["A"] "B" ["C"]
           VNone _ _ _ "no data" _ eq_refl Hraw eq_refl eq_refl Hpre eq_refl).
Defined.

(** A symbol that is listed twice. *)
Lemma raw_results_by_symbol_witness :
  closed (store twice) ∧
  raw_results twice = VRef 1 ∧
  store twice !! 1%nat = Some ∅ ∧
  evaluator (__callables twice) = Some classify ∧
  tame 1 classify ∧
  (∀ f, init (__callables twice) = Some f → tame 1 f) ∧
  ∃ s1 results d',
    run_through_loop twice = (Ok tt, s1) ∧
    List.length results = List.length (symbols twice) ∧
    trace s1 = trace twice ++ init_events twice
                 ++ evaluations (signal_state twice) (symbols twice) results ∧
    raw_results s1 = VRef 1 ∧
    store s1 !! 1%nat = Some d' ∧
    dom d' = dom (∅ : dict) ∪ list_to_set (symbols twice) ∧
    (∀ k, k ∉ symbols twice → d' !! k = (∅ : dict) !! k) ∧
    (∀ pre i post, symbols twice = pre ++ i :: post → i ∉ post →
       d' !! i = results !! List.length pre).
Proof.
  assert (closed (store twice)) as Hc
    by (apply new_signal_closed, closed_empty).
  assert (raw_results twice = VRef 1) as Hraw by (by vm_compute).
  assert (store twice !! 1%nat = Some ∅) as Hd by (by vm_compute).
  assert (∀ f, init (__callables twice) = Some f → tame 1 f) as Hinit
    by (intros f Hf; discriminate Hf).
  split; [exact Hc|]. split; [exact Hraw|]. split; [exact Hd|].
  split; [reflexivity|]. split; [apply classify_tame|]. split; [exact Hinit|].
  exact (raw_results_by_symbol twice 1 ∅ classify Hc Hraw Hd eq_refl
           (classify_tame 1) Hinit).
Defined.

(** With the overwriting formatter, what is reported is what it returned. *)
Lemma formatter_result_is_reported_witness :
  ∃ s2 v h,
    run_through_copy reporting = (Ok tt, s2) ∧
    formatter (__callables reporting) = Some overwrite ∧
    overwrite [formatted_results s2; signal_state reporting] (store s2)
    = (inr v, h) ∧
    __run reporting
    = run_teardown
        (set_formatted_results v
           (after_calls s2 h
              [Called "formatter"
                 [formatted_results s2; signal_state reporting] (inr v)])) ∧
    formatted_results (__run reporting).2 = v ∧
    ∀ output,
      trace (notify output (__run reporting).2).2
      = trace (__run reporting).2
          ++ [Emailed (if decide (output = VNone) then v else output)].
Proof.
  eexists _, _, _.
  eassert (run_through_copy reporting = (Ok tt, _)) as Hrun by reflexivity.
  match type of Hrun with
  | _ = (_, ?s2) =>
      eassert (overwrite [formatted_results s2; signal_state reporting]
                 (store s2) = (inr _, _)) as Hf by reflexivity
  end.
  split; [exact Hrun|]. split; [reflexivity|]. split; [exact Hf|].
  exact (formatter_result_is_reported reporting _ overwrite (inr _) _
           Hrun eq_refl Hf).
Defined.

End SignalFacts.
